(** * mopidy_raspberry_gpio.frontend: the GPIO polling frontend

    A shallow embedding of [RaspberryGPIOFrontend] (frontend.py): the
    sampling loop [_poll_loop], the edge detection for buttons, the routing
    of rotary lines, [dispatch_input] and the [handle_*] handlers.

    Every interaction with the outside (RPi.GPIO, time.sleep, the logger, the
    Mopidy core proxy, the threading primitives) is recorded as an [Event];
    what the outside answers is given by an environment [Env] of oracles that
    see the history of events so far.  A computation returns its result (or
    the exception it raised), the new object state and the events it
    performed, in the order it performed them. *)

From Stdlib Require Import QArith Ascii String.
From stdpp Require Import gmap strings list fin_maps.

Open Scope Z_scope.

(** ** Values, exceptions and events *)

(** GPIO.LOW / GPIO.HIGH, the two values [GPIO.input] returns. *)
Inductive level := LOW | HIGH.

#[global] Instance level_eq_dec : EqDecision level.
Proof. solve_decision. Defined.

(** A value of the free-form [options] mapping of a line. *)
Inductive Value :=
| VStr (s : string)
| VInt (z : Z).

#[global] Instance Value_eq_dec : EqDecision Value.
Proof. solve_decision. Defined.

Abbreviation Options := (gmap string Value).

(** Python exceptions that the modelled code raises or lets through. *)
Inductive exn :=
| AttributeError
| KeyError
| TypeError
| ValueError
| OverflowError
| RuntimeError (msg : string)
| OtherError (name : string).

#[global] Instance exn_eq_dec : EqDecision exn.
Proof. solve_decision. Defined.

Inductive Result (A : Type) :=
| Ok (a : A)
| Raise (e : exn).
Arguments Ok {A} a.
Arguments Raise {A} e.

(** core.PlaybackState *)
Inductive PlaybackState := PLAYING | PAUSED | STOPPED.

#[global] Instance PlaybackState_eq_dec : EqDecision PlaybackState.
Proof. solve_decision. Defined.

Definition Track := string.

(** models.Playlist, reduced to the field the frontend reads. *)
Record Playlist := { tracks : list Track }.

(** Calls on the Mopidy core proxy, [self.core.<...>]. *)
Inductive CoreCall :=
| GetState                              (* playback.get_state().get() *)
| Pause                                 (* playback.pause() *)
| Play                                  (* playback.play() *)
| Stop                                  (* playback.stop() *)
| Next                                  (* playback.next() *)
| Previous                              (* playback.previous() *)
| GetVolume                             (* mixer.get_volume().get() *)
| SetVolume (volume : Z)                (* mixer.set_volume(volume) *)
| Lookup (uri : option Value)           (* playlists.lookup(uri).get() *)
| TracklistClear                        (* tracklist.clear() *)
| TracklistAdd (ts : list Track).       (* tracklist.add(tracks=ts) *)

Inductive LogMsg :=
| LogRotary (pin : Z) (event : string)                 (* "Rotary encoder bcm%d event: %s" *)
| LogGpio (pin : Z) (event : string) (o : Options).    (* "GPIO bcm%d event: %s (%s)" *)

Inductive Event :=
| EvInput (pin : Z)                     (* GPIO.input(pin) *)
| EvCleanup                             (* GPIO.cleanup() *)
| EvSleep (secs : Q)                    (* time.sleep(secs) *)
| EvLog (m : LogMsg)                    (* logger.info(...) *)
| EvCore (c : CoreCall)
| EvDispatch (event : string) (o : Options)   (* dispatch_input(event, o) is entered *)
| EvIsSet                               (* self._stop_polling.is_set() *)
| EvStopSet                             (* self._stop_polling.set() *)
| EvThreadStart                         (* self._polling_thread.start() *)
| EvJoin (timeout : Q).                 (* self._polling_thread.join(timeout) *)

Abbreviation History := (list Event).

(** What the outside answers.  Each oracle receives the events performed
    before the call.  Only the calls whose result the frontend waits for
    ([.get()] on the returned future) can fail here: the other core calls
    return a future that is dropped.  [stop_is_set] is the flag of
    [self._stop_polling] as the polling thread finds it; [thread_alive] is
    what [self._polling_thread.is_alive()] would answer, which
    [join(timeout)] does not return and the frontend never asks.
    [int_of_str] is what the interpreter's [int()] makes of a str that is
    not a plain numeral (see [py_int]), and [sleep_refused] is what the
    operating system makes of a sleep of more than a day (see
    [time_sleep]): the exception, if it refuses. *)
Record Env := {
  gpio_input : History -> Z -> Result level;
  playback_get_state : History -> Result PlaybackState;
  mixer_get_volume : History -> Result (option Z);
  playlists_lookup : History -> option Value -> Result (option Playlist);
  stop_is_set : History -> bool;
  thread_alive : History -> bool;
  int_of_str : string -> Result Z;
  sleep_refused : Q -> option exn
}.

(** ** Computations: state, exceptions and the events performed *)

Definition M (S A : Type) : Type :=
  Env -> History -> S -> Result A * S * list Event.

Definition ret {S A} (a : A) : M S A :=
  fun _ _ s => (Ok a, s, []).

Definition raise {S A} (e : exn) : M S A :=
  fun _ _ s => (Raise e, s, []).

Definition bind {S A B} (m : M S A) (f : A -> M S B) : M S B :=
  fun env h s =>
    match m env h s with
    | (Ok a, s1, ev1) =>
        match f a env (h ++ ev1) s1 with
        | (r, s2, ev2) => (r, s2, ev1 ++ ev2)
        end
    | (Raise e, s1, ev1) => (Raise e, s1, ev1)
    end.

Notation "x <- m ;; k" := (bind m (fun x => k))
  (at level 100, m at next level, right associativity).
Notation "m ;; k" := (bind m (fun _ => k))
  (at level 100, right associativity).

(** [try: m except handler]: an exception [e] of [m] for which [handler e]
    is [Some k] is handled by [k]; any other one propagates.  What [m] did
    before raising stays done. *)
Definition try_except {S A} (m : M S A) (handler : exn -> option (M S A)) : M S A :=
  fun env h s =>
    match m env h s with
    | (Ok a, s1, ev1) => (Ok a, s1, ev1)
    | (Raise e, s1, ev1) =>
        match handler e with
        | Some k =>
            match k env (h ++ ev1) s1 with
            | (r, s2, ev2) => (r, s2, ev1 ++ ev2)
            end
        | None => (Raise e, s1, ev1)
        end
    end.

(** An effect without a result that matters. *)
Definition emit {S} (ev : Event) : M S unit :=
  fun _ _ s => (Ok tt, s, [ev]).

(** A call to the outside: the event, and the oracle's answer. *)
Definition external {S A} (ev : Event) (answer : Env -> History -> Result A) : M S A :=
  fun env h s => (answer env h, s, [ev]).

Definition gets {S A} (f : S -> A) : M S A :=
  fun _ _ s => (Ok (f s), s, []).

Definition modify {S} (f : S -> S) : M S unit :=
  fun _ _ s => (Ok tt, f s, []).

(** A Python [for] loop over a list. *)
Fixpoint for_each {S A} (l : list A) (body : A -> M S unit) : M S unit :=
  match l with
  | [] => ret tt
  | x :: l' => body x ;; for_each l' body
  end.

(** A builtin that performs nothing observable: its answer may depend on
    the interpreter. *)
Definition builtin {S A} (answer : Env -> Result A) : M S A :=
  fun env _ s => (answer env, s, []).

(** ** time.sleep and the float division *)

(** [n / 1000.0] for an int [n]: the int is converted to a float first,
    which is an OverflowError from 2^1024 - 2^970 on (the ints that round
    to 2^1024).  The quotient is kept exact: the float is the closest
    value to it. *)
Definition float_int_limit : Z := 2 ^ 1024 - 2 ^ 970.

Definition truediv_1000 (n : Z) : Result Q :=
  if Z.abs n <? float_int_limit then Ok (n # 1000) else Raise OverflowError.

(** The range of the interpreter's clock, a signed 64-bit count of
    nanoseconds. *)
Definition clock_overflows (secs : Q) : bool :=
  2 ^ 63 * Z.pos (Qden secs) <=? Z.abs (Qnum secs) * 10 ^ 9.

Definition within_a_day (secs : Q) : bool :=
  Qnum secs <=? 86400 * Z.pos (Qden secs).

(** time.sleep(secs).  The length is converted to nanoseconds first: out
    of the range of the clock it is an OverflowError (the comparison is
    exact for the lengths the frontend passes, whole milliseconds and the
    polling interval).  A negative length is then a ValueError.  A length
    of at most a day is slept; a longer one is handed to the operating
    system, which may refuse it.  [EvSleep] records a sleep that took
    place. *)
Definition time_sleep {S} (secs : Q) : M S unit :=
  fun env _ s =>
    if clock_overflows secs then (Raise OverflowError, s, [])
    else if Qnum secs <? 0 then (Raise ValueError, s, [])
    else if within_a_day secs then (Ok tt, s, [EvSleep secs])
    else
      match sleep_refused env secs with
      | Some e => (Raise e, s, [])
      | None => (Ok tt, s, [EvSleep secs])
      end.

(** ** Python's int() on an option value *)

Definition digit_of (c : ascii) : option Z :=
  let n := nat_of_ascii c in
  if (Nat.leb 48 n && Nat.leb n 57)%bool then Some (Z.of_nat (n - 48)) else None.

(** The value of a run of ASCII digits, None when another character is
    among them. *)
Fixpoint digits_value (acc : Z) (l : list ascii) : option Z :=
  match l with
  | [] => Some acc
  | c :: l' =>
      match digit_of c with
      | Some d => digits_value (10 * acc + d) l'
      | None => None
      end
  end.

(** sys.int_info.str_digits_check_threshold: int() never refuses a
    numeral of so few digits for its length. *)
Definition str_digits_check_threshold : nat := 640.

(** A plain numeral: an optional "-" and then from 1 to 640 ASCII digits,
    nothing else. *)
Definition plain_numeral (s : string) : option Z :=
  let l := list_ascii_of_string s in
  let sign_digits :=
    match l with
    | "-"%char :: ds => (true, ds)
    | _ => (false, l)
    end in
  let ds := sign_digits.2 in
  if (Nat.leb 1 (length ds) && Nat.leb (length ds) str_digits_check_threshold)%bool
  then (fun z => if sign_digits.1 then - z else z) <$> digits_value 0 ds
  else None.

(** int(v): an int is itself and a plain numeral is its value in base 10.
    What int() makes of any other str (white space, "+", underscores,
    digits of other scripts, the limit on the number of digits) is the
    interpreter's: [int_str] answers for it.  A str is kept as the bytes
    of its UTF-8 encoding. *)
Definition py_int (int_str : string -> Result Z) (v : Value) : Result Z :=
  match v with
  | VInt z => Ok z
  | VStr s =>
      match plain_numeral s with
      | Some z => Ok z
      | None => int_str s
      end
  end.

Definition lift_result {S A} (r : Result A) : M S A :=
  fun _ _ s => (r, s, []).

(** ** The handlers *)

Section Handlers.
Context {S : Type}.

Definition core_call (c : CoreCall) : M S unit := emit (EvCore c).

Definition get_state : M S PlaybackState :=
  external (EvCore GetState) playback_get_state.

Definition get_volume : M S (option Z) :=
  external (EvCore GetVolume) mixer_get_volume.

Definition lookup_playlist (uri : option Value) : M S (option Playlist) :=
  external (EvCore (Lookup uri)) (fun env h => playlists_lookup env h uri).

Definition handle_play_pause (config : Options) : M S unit :=
  st <- get_state ;;
  if decide (st = PLAYING) then core_call Pause else core_call Play.

Definition handle_play_stop (config : Options) : M S unit :=
  st <- get_state ;;
  if decide (st = PLAYING) then core_call Stop else core_call Play.

Definition handle_next (config : Options) : M S unit :=
  core_call Next.

Definition handle_prev (config : Options) : M S unit :=
  core_call Previous.

(** int(config.get("step", 5)) *)
Definition config_step (config : Options) : M S Z :=
  builtin (fun env => py_int (int_of_str env) (default (VInt 5) (config !! "step"))).

(** [volume + step] and [volume - step]: None is not a number. *)
Definition as_number (volume : option Z) : M S Z :=
  match volume with
  | Some v => ret v
  | None => raise TypeError
  end.

Definition handle_volume_up (config : Options) : M S unit :=
  step <- config_step config ;;
  volume <- get_volume ;;
  v <- as_number volume ;;
  let volume := Z.min (v + step) 100 in
  core_call (SetVolume volume).

Definition handle_volume_down (config : Options) : M S unit :=
  step <- config_step config ;;
  volume <- get_volume ;;
  v <- as_number volume ;;
  let volume := Z.max (v - step) 0 in
  core_call (SetVolume volume).

(** [playlist.tracks] is evaluated after [tracklist.clear()] was called;
    on [None] (no such playlist) it is an AttributeError. *)
Definition handle_playlist (config : Options) : M S unit :=
  playlist <- lookup_playlist (config !! "uri") ;;
  core_call TracklistClear ;;
  ts <- match playlist with
        | Some p => ret (tracks p)
        | None => raise AttributeError
        end ;;
  core_call (TracklistAdd ts) ;;
  core_call Play.

(** getattr(self, name), for the names that start with "handle_": the
    methods of the class. *)
Definition getattr_handler (name : string) : option (Options -> M S unit) :=
  if decide (name = "handle_play_pause") then Some handle_play_pause
  else if decide (name = "handle_play_stop") then Some handle_play_stop
  else if decide (name = "handle_next") then Some handle_next
  else if decide (name = "handle_prev") then Some handle_prev
  else if decide (name = "handle_volume_up") then Some handle_volume_up
  else if decide (name = "handle_volume_down") then Some handle_volume_down
  else if decide (name = "handle_playlist") then Some handle_playlist
  else None.

(** getattr(self, handler_name)(options) *)
Definition call_handler (handler_name : string) (options : Options) : M S unit :=
  match getattr_handler handler_name with
  | Some handler => handler options
  | None => raise AttributeError
  end.

Definition missing_handler (event : string) : exn :=
  RuntimeError ("Could not find input handler for event: " +:+ event).

(** The first event only records that the method is entered. *)
Definition dispatch_input (event : string) (options : Options) : M S unit :=
  emit (EvDispatch event options) ;;
  let handler_name := "handle_" +:+ event in
  try_except (call_handler handler_name options)
    (fun e => match e with
              | AttributeError => Some (raise (missing_handler event))
              | _ => None
              end).
End Handlers.

(** ** The frontend object *)

(** The per-line settings (a named tuple built by the configuration
    schema): [settings.event], [.active], [.bouncetime], [.options]. *)
Record Settings := {
  event : string;
  active : string;
  bouncetime : Z;
  options : Options
}.

(** [if event:] on a str or None: the name when it is a non-empty str. *)
Definition truthy (ev : option string) : option string :=
  match ev with
  | Some name => if decide (name = "") then None else Some name
  | None => None
  end.

Section Frontend.
(** rotencoder.RotEncoder is used through its [pins] attribute and its
    [get_event()] method, which may read the hardware and changes the
    encoder object itself. *)
Variable RotEncoder : Type.
Variable pins : RotEncoder -> list Z.
Variable get_event : M RotEncoder (option string).

(** The attributes of [self].  A dict that is iterated is a list of
    items in insertion order; an encoder object is identified by its
    position in [rot_encoders].  [self._stop_polling] is shared with the
    thread that stops the loop: its flag is read from the environment
    ([stop_is_set]).  [self.core] is the outside. *)
Record Frontend := {
  pin_settings : list (Z * Settings);
  rot_encoders : list (Value * RotEncoder);
  last_states : gmap Z level;
  polling_thread : bool            (* self._polling_thread is bound *)
}.

Definition set_last_states (f : gmap Z level -> gmap Z level) (s : Frontend) : Frontend :=
  {| pin_settings := pin_settings s;
     rot_encoders := rot_encoders s;
     last_states := f (last_states s);
     polling_thread := polling_thread s |}.

Definition set_rot_encoders
    (f : list (Value * RotEncoder) -> list (Value * RotEncoder)) (s : Frontend) : Frontend :=
  {| pin_settings := pin_settings s;
     rot_encoders := f (rot_encoders s);
     last_states := last_states s;
     polling_thread := polling_thread s |}.

Definition set_polling_thread (b : bool) (s : Frontend) : Frontend :=
  {| pin_settings := pin_settings s;
     rot_encoders := rot_encoders s;
     last_states := last_states s;
     polling_thread := b |}.

(** d[key] on a dict kept as a list of items: KeyError when absent. *)
Definition dict_index {K V} `{EqDecision K} (key : K) (d : list (K * V)) : option (nat * (K * V)) :=
  list_find (fun item => item.1 = key) d.

Definition getitem {K V} `{EqDecision K} (field : Frontend -> list (K * V)) (key : K)
  : M Frontend V :=
  fun _ _ s =>
    match dict_index key (field s) with
    | Some (_, (_, v)) => (Ok v, s, [])
    | None => (Raise KeyError, s, [])
    end.

(** The same lookup, returning the position of the item: a reference to
    the object stored there. *)
Definition getitem_ref {K V} `{EqDecision K} (field : Frontend -> list (K * V)) (key : K)
  : M Frontend nat :=
  fun _ _ s =>
    match dict_index key (field s) with
    | Some (i, _) => (Ok i, s, [])
    | None => (Raise KeyError, s, [])
    end.

Definition GPIO_input (pin : Z) : M Frontend level :=
  external (EvInput pin) (fun env h => gpio_input env h pin).

Definition logger_info (m : LogMsg) : M Frontend unit := emit (EvLog m).

(** self.last_states[pin] *)
Definition last_states_get (pin : Z) : M Frontend level :=
  fun _ _ s =>
    match last_states s !! pin with
    | Some l => (Ok l, s, [])
    | None => (Raise KeyError, s, [])
    end.

(** self.last_states[pin] = state *)
Definition last_states_set (pin : Z) (state : level) : M Frontend unit :=
  modify (set_last_states (fun m => <[pin := state]> m)).

(** encoder.get_event() on the encoder object at position [i]. *)
Definition encoder_get_event (i : nat) : M Frontend (option string) :=
  fun env h s =>
    match rot_encoders s !! i with
    | Some (key, encoder) =>
        match get_event env h encoder with
        | (r, encoder', evs) =>
            (r, set_rot_encoders (fun d => <[i := (key, encoder')]> d) s, evs)
        end
    | None => (Raise KeyError, s, [])
    end.

(** The first encoder, in the order of [rot_encoders.values()], that has
    the pin; None when the loop ends without a return. *)
Definition find_pin_rotenc (pin : Z) : M Frontend (option nat) :=
  gets (fun s => fst <$> list_find (fun item => pin ∈ pins item.2) (rot_encoders s)).

Definition gpio_event (pin : Z) : M Frontend unit :=
  settings <- getitem pin_settings pin ;;
  let event0 := Some (event settings) in
  encoder <- find_pin_rotenc pin ;;
  event1 <- match encoder with
            | Some i => encoder_get_event i
            | None => ret event0
            end ;;
  match truthy event1 with
  | Some name =>
      logger_info (LogGpio pin name (options settings)) ;;
      dispatch_input name (options settings)
  | None => ret tt
  end.

(** The body of [if "rotenc_id" in settings.options:], up to [continue]. *)
Definition poll_rotary (pin : Z) (settings : Settings) (rotenc_id : Value)
    (state last : level) : M Frontend unit :=
  (if decide (state ≠ last) then
     i <- getitem_ref rot_encoders rotenc_id ;;
     event1 <- encoder_get_event i ;;
     match truthy event1 with
     | Some name =>
         logger_info (LogRotary pin name) ;;
         dispatch_input name (options settings)
     | None => ret tt
     end
   else ret tt) ;;
  last_states_set pin state.

(** The condition of the [if] at lines 87-89. *)
Definition activating_edge (settings : Settings) (state last : level) : bool :=
  let active_low := bool_decide (active settings ≠ "active_high") in
  (active_low && bool_decide (last = HIGH) && bool_decide (state = LOW))
  || (negb active_low && bool_decide (last = LOW) && bool_decide (state = HIGH)).

(** [settings.bouncetime / 1000.0] *)
Definition debounce (settings : Settings) : Result Q :=
  truediv_1000 (bouncetime settings).

(** [time.sleep(settings.bouncetime / 1000.0)], line 91. *)
Definition debounce_wait (settings : Settings) : M Frontend unit :=
  secs <- lift_result (debounce settings) ;;
  time_sleep secs.

(** The rest of the loop body, for a button line. *)
Definition poll_button (pin : Z) (settings : Settings) (state last : level)
  : M Frontend unit :=
  (if activating_edge settings state last then
     gpio_event pin ;;
     debounce_wait settings
   else ret tt) ;;
  last_states_set pin state.

(** One iteration of [for pin, settings in self.pin_settings.items()]. *)
Definition poll_line (line : Z * Settings) : M Frontend unit :=
  let '(pin, settings) := line in
  state <- GPIO_input pin ;;
  last <- last_states_get pin ;;
  match options settings !! "rotenc_id" with
  | Some rotenc_id => poll_rotary pin settings rotenc_id state last
  | None => poll_button pin settings state last
  end.

(** One polling pass: the whole [for] loop. *)
Definition poll_pass : M Frontend unit :=
  lines <- gets pin_settings ;;
  for_each lines poll_line.

Definition is_set : M Frontend bool :=
  external EvIsSet (fun env h => Ok (stop_is_set env h)).

(** The argument of [time.sleep(0.0005)]. *)
Definition poll_interval : Q := 5 # 10000.

(** [_poll_loop]: [Some tt] when the [while] loop ended, [None] when
    [fuel] passes were not enough to see it end. *)
Fixpoint _poll_loop (fuel : nat) : M Frontend (option unit) :=
  match fuel with
  | O => ret None
  | S fuel' =>
      stop <- is_set ;;
      if stop then ret (Some tt)
      else
        poll_pass ;;
        time_sleep poll_interval ;;
        _poll_loop fuel'
  end.

Definition on_start : M Frontend unit :=
  modify (set_polling_thread true) ;;
  emit EvThreadStart.

(** [self._polling_thread] is an AttributeError before [on_start];
    [join] returns None whether or not the thread has ended. *)
Definition on_stop : M Frontend unit :=
  emit EvStopSet ;;
  started <- gets polling_thread ;;
  (if started then emit (EvJoin 1) else raise AttributeError) ;;
  emit EvCleanup.
End Frontend.

Arguments Build_Frontend {RotEncoder}.
Arguments pin_settings {RotEncoder}.
Arguments rot_encoders {RotEncoder}.
Arguments last_states {RotEncoder}.
Arguments polling_thread {RotEncoder}.
Arguments set_last_states {RotEncoder}.
Arguments set_rot_encoders {RotEncoder}.
Arguments set_polling_thread {RotEncoder}.
Arguments getitem {RotEncoder K V _}.
Arguments getitem_ref {RotEncoder K V _}.
Arguments GPIO_input {RotEncoder}.
Arguments logger_info {RotEncoder}.
Arguments last_states_get {RotEncoder}.
Arguments last_states_set {RotEncoder}.
Arguments encoder_get_event {RotEncoder}.
Arguments find_pin_rotenc {RotEncoder}.
Arguments gpio_event {RotEncoder}.
Arguments debounce_wait {RotEncoder}.
Arguments poll_rotary {RotEncoder}.
Arguments poll_button {RotEncoder}.
Arguments poll_line {RotEncoder}.
Arguments poll_pass {RotEncoder}.
Arguments is_set {RotEncoder}.
Arguments _poll_loop {RotEncoder}.
Arguments on_start {RotEncoder}.
Arguments on_stop {RotEncoder}.

(** ** The quadrature decoder *)

Module Quadrature.
(** Modelled from the spec: the two directional events of the decoder of
    rotencoder.py (not among the sources). *)
Inductive direction := Clockwise | CounterClockwise.

#[global] Instance direction_eq_dec : EqDecision direction.
Proof. solve_decision. Defined.

(** Modelled from the spec: a line level as one bit of the state of
    rotencoder.py (not among the sources). *)
Definition bit (l : level) : Z :=
  match l with LOW => 0 | HIGH => 1 end.

(** Modelled from the spec: rotencoder.py (class RotEncoder) is imported by
    frontend.py and is not among the sources.  The state is
    (levelA, levelB) as a 2-bit value. *)
Definition state_of (a b : level) : Z :=
  Z.lor (Z.shiftl (bit a) 1) (bit b).

(** Modelled from the spec: the forward/backward adjacency table of the
    4-state Gray cycle of rotencoder.py (not among the sources),
    00→01→11→10→00 clockwise and the reverse counter-clockwise. *)
Definition adjacency : list (Z * Z * direction) :=
  [ (0, 1, Clockwise); (1, 3, Clockwise); (3, 2, Clockwise); (2, 0, Clockwise);
    (0, 2, CounterClockwise); (2, 3, CounterClockwise);
    (3, 1, CounterClockwise); (1, 0, CounterClockwise) ].

(** Modelled from the spec: the comparison of the previous state with the
    recomputed one against the adjacency table (rotencoder.py, absent). *)
Definition transition (prev new : Z) : option direction :=
  snd <$> (snd <$> list_find (fun entry => entry.1 = (prev, new)) adjacency).

(** Modelled from the spec: the decoder state of a RotaryGroup
    (rotencoder.py, absent); no state before the first sample. *)
Record decoder := { qstate : option Z }.

(** Modelled from the spec: one recomputation of the state on new levels
    of the two lines (rotencoder.py, absent).  An adjacent transition
    emits one directional event, any other emits none; the new state is
    kept in both cases. *)
Definition sample (d : decoder) (a b : level) : list direction * decoder :=
  let new := state_of a b in
  (match qstate d with
   | Some prev =>
       match transition prev new with
       | Some dir => [dir]
       | None => []
       end
   | None => []
   end,
   {| qstate := Some new |}).

(** The [i]-th state of the Gray cycle, [i] counted clockwise from 00. *)
Definition gray (i : Z) : Z := Z.lxor i (Z.shiftr i 1).
End Quadrature.

(** An encoder object for the frontend.  rotencoder.py is not among the
    sources, so the class is modelled from the spec and from its uses in
    frontend.py ([RotEncoder(rotenc_id)], [add_pin(pin, event)], [pins],
    [get_event()]). *)
Module RotEncoderModel.
(** Modelled from the spec: the RotaryGroup of rotencoder.py (absent): the
    member lines and the events bound with [add_pin(pin, event)], in
    declaration order, and the decoder state. *)
Record RotEncoder := {
  pins : list Z;
  events : list string;
  decoder : Quadrature.decoder
}.

(** Modelled from the spec: the read of a member line by rotencoder.py
    (absent), through the same GPIO capability as the sampling loop. *)
Definition read (pin : Z) : M RotEncoder level :=
  external (EvInput pin) (fun env h => gpio_input env h pin).

(** Modelled from the spec: the event name of a direction in rotencoder.py
    (absent).  The spec does not fix it; here clockwise yields the event
    bound with the first line and counter-clockwise the one bound with the
    second. *)
Definition event_of (enc : RotEncoder) (d : Quadrature.direction) : option string :=
  match d with
  | Quadrature.Clockwise => events enc !! 0%nat
  | Quadrature.CounterClockwise => events enc !! 1%nat
  end.

(** Modelled from the spec: [RotEncoder.get_event()] of rotencoder.py
    (absent): read both lines, recompute the state, and report the event of
    an adjacent transition, None otherwise (also while fewer than two lines
    are bound). *)
Definition get_event : M RotEncoder (option string) :=
  enc <- gets id ;;
  match pins enc with
  | [pin_a; pin_b] =>
      a <- read pin_a ;;
      b <- read pin_b ;;
      let '(dirs, d') := Quadrature.sample (decoder enc) a b in
      modify (fun e => {| pins := pins e; events := events e; decoder := d' |}) ;;
      ret (match dirs with
           | d :: _ => event_of enc d
           | [] => None
           end)
  | _ => ret None
  end.
End RotEncoderModel.

(** ** The construction of the frontend object

    [__init__] talks to RPi.GPIO in other ways than the loop does (it sets
    the library up and configures the lines), so it has its own events and
    its own environment; the computations have the same shape as above. *)

(** GPIO.PUD_UP / GPIO.PUD_DOWN *)
Inductive Pull := PUD_UP | PUD_DOWN.

#[global] Instance Pull_eq_dec : EqDecision Pull.
Proof. solve_decision. Defined.

Inductive InitEvent :=
| IeSetwarnings (flag : bool)           (* GPIO.setwarnings(flag) *)
| IeSetmodeBCM                          (* GPIO.setmode(GPIO.BCM) *)
| IeConfiguring (key : string) (settings : Settings)
                                        (* logger.info("Configuring " + key + " " + str(settings)) *)
| IeSetup (pin : Z) (pull : Pull)       (* GPIO.setup(pin, GPIO.IN, pull_up_down=pull) *)
| IeInput (pin : Z).                    (* GPIO.input(pin) *)

(** What RPi.GPIO answers during [__init__]: whether a call without a
    result is accepted, and the level of a line; and what [int()] makes of
    a str that is not a plain numeral. *)
Record InitEnv := {
  gpio_accepts : list InitEvent -> InitEvent -> Result unit;
  gpio_level : list InitEvent -> Z -> Result level;
  init_int_of_str : string -> Result Z
}.

Definition IM (S A : Type) : Type :=
  InitEnv -> list InitEvent -> S -> Result A * S * list InitEvent.

Definition iret {S A} (a : A) : IM S A :=
  fun _ _ s => (Ok a, s, []).

Definition ibind {S A B} (m : IM S A) (f : A -> IM S B) : IM S B :=
  fun env h s =>
    match m env h s with
    | (Ok a, s1, ev1) =>
        match f a env (h ++ ev1) s1 with
        | (r, s2, ev2) => (r, s2, ev1 ++ ev2)
        end
    | (Raise e, s1, ev1) => (Raise e, s1, ev1)
    end.

Notation "x <~ m ;; k" := (ibind m (fun x => k))
  (at level 100, m at next level, right associativity).
Notation "m ;;; k" := (ibind m (fun _ => k))
  (at level 100, right associativity).

Definition ibuiltin {S A} (answer : InitEnv -> Result A) : IM S A :=
  fun env _ s => (answer env, s, []).

Definition iemit {S} (ev : InitEvent) : IM S unit :=
  fun _ _ s => (Ok tt, s, [ev]).

Definition igets {S A} (f : S -> A) : IM S A :=
  fun _ _ s => (Ok (f s), s, []).

Definition imodify {S} (f : S -> S) : IM S unit :=
  fun _ _ s => (Ok tt, f s, []).

(** A GPIO call without a result. *)
Definition gpio_call {S} (ev : InitEvent) : IM S unit :=
  fun env h s => (gpio_accepts env h ev, s, [ev]).

(** GPIO.input(pin) *)
Definition gpio_read {S} (pin : Z) : IM S level :=
  fun env h s => (gpio_level env h pin, s, [IeInput pin]).

Fixpoint ifor_each {S A} (l : list A) (body : A -> IM S unit) : IM S unit :=
  match l with
  | [] => iret tt
  | x :: l' => body x ;;; ifor_each l' body
  end.

(** key.startswith("bcm") *)
Definition startswith_bcm (key : string) : bool := String.prefix "bcm" key.

(** key.replace("bcm", ""): every occurrence, found from the left, is
    dropped. *)
Fixpoint replace_bcm (key : string) : string :=
  match key with
  | String "b" (String "c" (String "m" rest)) => replace_bcm rest
  | String c rest => String c (replace_bcm rest)
  | EmptyString => EmptyString
  end.

(** int(key.replace("bcm", "")) *)
Definition pin_of_key (int_str : string -> Result Z) (key : string) : Result Z :=
  py_int int_str (VStr (replace_bcm key)).

(** d[key] = v on a dict kept as a list of items: the value of an item
    with this key is replaced where it is, a new item goes to the end. *)
Fixpoint dict_set {K V} `{EqDecision K} (key : K) (v : V) (d : list (K * V)) : list (K * V) :=
  match d with
  | [] => [(key, v)]
  | (k, x) :: d' =>
      if decide (k = key) then (k, v) :: d' else (k, x) :: dict_set key v d'
  end.

(** [GPIO.PUD_UP if settings.active != "active_high" else GPIO.PUD_DOWN] *)
Definition pull_of (settings : Settings) : Pull :=
  if decide (active settings <> "active_high") then PUD_UP else PUD_DOWN.

Section Init.
(** Of rotencoder.RotEncoder, [__init__] uses the constructor and
    [add_pin(pin, event)], which changes the encoder object and may
    raise. *)
Variable RotEncoder : Type.
Variable new_encoder : Value -> RotEncoder.
Variable add_pin : Z -> string -> RotEncoder -> Result unit * RotEncoder.

Definition set_pin_settings
    (f : list (Z * Settings) -> list (Z * Settings)) (s : Frontend RotEncoder)
  : Frontend RotEncoder :=
  {| pin_settings := f (pin_settings s);
     rot_encoders := rot_encoders s;
     last_states := last_states s;
     polling_thread := polling_thread s |}.

(** The object before the loop over the configuration: the three dicts
    are empty and [_polling_thread] is not bound. *)
Definition empty_frontend : Frontend RotEncoder :=
  {| pin_settings := []; rot_encoders := []; last_states := ∅; polling_thread := false |}.

(** [self.rot_encoders.get(rotenc_id)], and when there is none,
    [RotEncoder(rotenc_id)] stored under the id; the result is the
    position of the encoder object. *)
Definition get_or_create_encoder (rotenc_id : Value) : IM (Frontend RotEncoder) nat :=
  found <~ igets (fun s => dict_index rotenc_id (rot_encoders s)) ;;
  match found with
  | Some (i, _) => iret i
  | None =>
      i <~ igets (fun s => length (rot_encoders s)) ;;
      imodify (set_rot_encoders (dict_set rotenc_id (new_encoder rotenc_id))) ;;;
      iret i
  end.

(** encoder.add_pin(pin, event) on the encoder object at position [i]. *)
Definition encoder_add_pin (i : nat) (pin : Z) (name : string)
  : IM (Frontend RotEncoder) unit :=
  fun _ _ s =>
    match rot_encoders s !! i with
    | Some (key, encoder) =>
        match add_pin pin name encoder with
        | (r, encoder') =>
            (r, set_rot_encoders (fun d => <[i := (key, encoder')]> d) s, [])
        end
    | None => (Raise KeyError, s, [])
    end.

(** The body of [for key in self.config], for the item [(key, value)] of
    the configuration section; [value] is read only for a "bcm" key, where
    it is the settings of the line or None. *)
Definition setup_key (item : string * option Settings) : IM (Frontend RotEncoder) unit :=
  let '(key, value) := item in
  if startswith_bcm key then
    pin <~ ibuiltin (fun env => pin_of_key (init_int_of_str env) key) ;;
    match value with
    | None => iret tt
    | Some settings =>
        iemit (IeConfiguring key settings) ;;;
        let pull := pull_of settings in
        match options settings !! "rotenc_id" with
        | Some rotenc_id =>
            i <~ get_or_create_encoder rotenc_id ;;
            encoder_add_pin i pin (event settings)
        | None => iret tt
        end ;;;
        gpio_call (IeSetup pin pull) ;;;
        imodify (set_pin_settings (dict_set pin settings)) ;;;
        state <~ gpio_read pin ;;
        imodify (set_last_states (fun m => <[pin := state]> m))
    end
  else iret tt.

(** [__init__], from [self.pin_settings = {}] on, for the configuration
    section [config["raspberry-gpio"]] as the list of its items. *)
Definition __init__ (config : list (string * option Settings))
  : IM (Frontend RotEncoder) unit :=
  gpio_call (IeSetwarnings false) ;;;
  gpio_call IeSetmodeBCM ;;;
  ifor_each config setup_key.

(** The object that [__init__] leaves, with what it returned or raised and
    the calls it made. *)
Definition construct (config : list (string * option Settings)) (env : InitEnv)
  : Result unit * Frontend RotEncoder * list InitEvent :=
  __init__ config env [] empty_frontend.
End Init.

Arguments set_pin_settings {RotEncoder}.
Arguments empty_frontend {RotEncoder}.
Arguments get_or_create_encoder {RotEncoder}.
Arguments encoder_add_pin {RotEncoder}.
Arguments setup_key {RotEncoder}.
Arguments __init__ {RotEncoder}.
Arguments construct {RotEncoder}.

(** The constructor and [add_pin] of the encoder object modelled above. *)
Module RotEncoderInit.
Import RotEncoderModel.

(** Modelled from the spec: [RotEncoder(rotenc_id)] of rotencoder.py
    (absent): no line bound, no sample seen. *)
Definition new_encoder (rotenc_id : Value) : RotEncoder :=
  {| pins := []; events := []; decoder := {| Quadrature.qstate := None |} |}.

(** Modelled from the spec: [add_pin(pin, event)] of rotencoder.py
    (absent): the line is bound after those bound before; binding a third
    line is an error. *)
Definition add_pin (pin : Z) (name : string) (enc : RotEncoder)
  : Result unit * RotEncoder :=
  if decide (2 <= length (pins enc))%nat
  then (Raise (RuntimeError "Too many pins for rotary encoder"), enc)
  else (Ok tt,
        {| pins := pins enc ++ [pin];
           events := events enc ++ [name];
           decoder := decoder enc |}).
End RotEncoderInit.

(** * Notions used in the statements *)

(** The queue of the core after the tracklist calls among [evs], from the
    queue [queue]: [tracklist.clear()] empties it, [tracklist.add(tracks)]
    appends to it. *)
Definition tracklist_after (evs : list Event) (queue : list Track) : list Track :=
  fold_left
    (fun q ev =>
       match ev with
       | EvCore TracklistClear => []
       | EvCore (TracklistAdd ts) => q ++ ts
       | _ => q
       end)
    evs queue.

(** The configured step as the spec has it: the "step" option read as a
    number, 5 when the options have none. *)
Definition configured_step (env : Env) (config : Options) : Result Z :=
  match config !! "step" with
  | Some v => py_int (int_of_str env) v
  | None => Ok 5
  end.

(** What dispatch_input makes of the outcome of the handler call. *)
Definition report_missing {A} (event : string) (r : Result A) : Result A :=
  match r with
  | Raise AttributeError => Raise (missing_handler event)
  | _ => r
  end.

(** The calls of dispatch_input among [evs], in order. *)
Definition dispatched (evs : list Event) : list (string * Options) :=
  omap (fun ev => match ev with
                  | EvDispatch name o => Some (name, o)
                  | _ => None
                  end) evs.

Definition is_core (ev : Event) : Prop :=
  match ev with EvCore _ => True | _ => False end.

Definition is_sleep (ev : Event) : Prop :=
  match ev with EvSleep _ => True | _ => False end.

(** The level a polarity token names as active, and the other level. *)
Definition active_level (polarity : string) : option level :=
  if decide (polarity = "active_low") then Some LOW
  else if decide (polarity = "active_high") then Some HIGH
  else None.

Definition opposite (l : level) : level :=
  match l with LOW => HIGH | HIGH => LOW end.

(** The line is bound as it is looked up: [self.pin_settings[pin]] is
    [settings]. *)
Definition bound_line {RotEncoder} (s : Frontend RotEncoder) (pin : Z)
    (settings : Settings) : Prop :=
  exists i, dict_index pin (pin_settings s) = Some (i, (pin, settings)).

(** The pin is in no encoder's [pins]. *)
Definition in_no_encoder {RotEncoder} (pins : RotEncoder -> list Z)
    (s : Frontend RotEncoder) (pin : Z) : Prop :=
  list_find (fun item : Value * RotEncoder => pin ∈ pins item.2) (rot_encoders s) = None.

(** Every event that [m] performs satisfies [P]. *)
Definition emits {S A} (P : Event -> Prop) (m : M S A) : Prop :=
  forall env h s r s' evs, m env h s = (r, s', evs) -> Forall P evs.

(** [ev] is no sleep, or it is the debounce wait of a button line with
    these settings. *)
Definition debounce_of (settings : Settings) (ev : Event) : Prop :=
  forall secs, ev = EvSleep secs ->
    options settings !! "rotenc_id" = None /\ debounce settings = Ok secs.

(** What becomes of the debounce wait of a line: the length slept, or the
    exception of the division or of [time.sleep]. *)
Definition debounce_slept (env : Env) (settings : Settings) : Result Q :=
  match debounce settings with
  | Ok secs =>
      match (time_sleep (S := unit) secs env [] tt).1.1 with
      | Ok _ => Ok secs
      | Raise e => Raise e
      end
  | Raise e => Raise e
  end.

(** The longest debounce time, in milliseconds, that is slept whatever the
    operating system: a day. *)
Definition bouncetime_max : Z := 86400000.

(** The number of [GPIO.cleanup()] calls among [evs]. *)
Definition cleanups (evs : list Event) : nat :=
  length (List.filter (fun ev => match ev with EvCleanup => true | _ => false end) evs).

(** * Further notions used in the statements *)

(** Every run of [m] relates the state before to the state after by [R],
    also when it raises. *)
Definition keeps {S A} (R : S -> S -> Prop) (m : M S A) : Prop :=
  forall env h s r s' evs, m env h s = (r, s', evs) -> R s s'.

(** What the sampling loop reads and never writes: the line settings, the
    thread attribute, and which encoder is bound to which id. *)
Definition same_configuration {RotEncoder} (s s' : Frontend RotEncoder) : Prop :=
  pin_settings s' = pin_settings s
  /\ polling_thread s' = polling_thread s
  /\ (rot_encoders s').*1 = (rot_encoders s).*1.

(** No stored level is dropped. *)
Definition levels_kept {RotEncoder} (s s' : Frontend RotEncoder) : Prop :=
  forall pin, is_Some (last_states s !! pin) -> is_Some (last_states s' !! pin).

(** Every line of [pin_settings] has a stored level, and every line with a
    "rotenc_id" option has its encoder in [rot_encoders]: the lookups of
    the loop body find their keys. *)
Definition well_formed {RotEncoder} (s : Frontend RotEncoder) : Prop :=
  forall pin settings,
    (pin, settings) ∈ pin_settings s ->
    is_Some (last_states s !! pin)
    /\ forall rotenc_id,
         options settings !! "rotenc_id" = Some rotenc_id ->
         rotenc_id ∈ (rot_encoders s).*1.

(** The hardware holds every line of [pin_settings] at its stored level. *)
Definition steady {RotEncoder} (env : Env) (s : Frontend RotEncoder) : Prop :=
  forall h pin settings,
    (pin, settings) ∈ pin_settings s ->
    exists l, last_states s !! pin = Some l /\ gpio_input env h pin = Ok l.

(** The reads of one pass, in the order of [pin_settings]. *)
Definition pass_reads {RotEncoder} (s : Frontend RotEncoder) : list Event :=
  (fun line => EvInput line.1) <$> pin_settings s.

(** The [set_volume] calls among [evs]. *)
Definition volumes_set (evs : list Event) : list Z :=
  omap (fun ev => match ev with
                  | EvCore (SetVolume v) => Some v
                  | _ => None
                  end) evs.

(** The stored levels are as before. *)
Definition same_levels {RotEncoder} (s s' : Frontend RotEncoder) : Prop :=
  last_states s' = last_states s.

(** The calls that [__init__] makes for one item of the configuration
    section when it gets through it. *)
Definition key_calls (int_str : string -> Result Z) (item : string * option Settings)
  : list InitEvent :=
  if startswith_bcm item.1 then
    match item.2, pin_of_key int_str item.1 with
    | Some settings, Ok pin =>
        [IeConfiguring item.1 settings; IeSetup pin (pull_of settings); IeInput pin]
    | _, _ => []
    end
  else [].

(** What [__init__] establishes: the keys of the two dicts are distinct
    (they are dicts), the thread is not bound, the lookups of the loop
    body find their keys, and a level is stored for the configured pins
    only. *)
Definition constructed {RotEncoder} (s : Frontend RotEncoder) : Prop :=
  NoDup (pin_settings s).*1
  /\ NoDup (rot_encoders s).*1
  /\ polling_thread s = false
  /\ well_formed s
  /\ forall pin, is_Some (last_states s !! pin) -> pin ∈ (pin_settings s).*1.

(** The encoder part of the loop body of [__init__] may add or change
    encoders and nothing else. *)
Definition encoders_extended {RotEncoder} (s s1 : Frontend RotEncoder) : Prop :=
  pin_settings s1 = pin_settings s
  /\ last_states s1 = last_states s
  /\ polling_thread s1 = polling_thread s
  /\ (NoDup (rot_encoders s).*1 -> NoDup (rot_encoders s1).*1)
  /\ forall k, k ∈ (rot_encoders s).*1 -> k ∈ (rot_encoders s1).*1.

(** An item of the configuration section that [__init__] does not pass
    over: its key starts with "bcm", and it has settings or [int()]
    raises on the rest of its key. *)
Definition matters (int_str : string -> Result Z) (item : string * option Settings) : bool :=
  startswith_bcm item.1
  && (match item.2 with Some _ => true | None => false end
      || match pin_of_key int_str item.1 with Ok _ => false | Raise _ => true end).

(** * A small installation

    Two buttons (bcm17: next, active low, 200 ms; bcm27: prev, active high,
    150 ms) and one rotary encoder "vol" on bcm5 and bcm6. *)

Module Examples.
Import RotEncoderModel.

Definition party : Playlist := {| tracks := ["local:track:a.mp3"; "local:track:b.mp3"] |}.

Definition party_uri : Value := VStr "m3u:party.m3u8".

Definition party_options : Options := {[ "uri" := party_uri ]}.

(** A playlist that the core does not have. *)
Definition gone_options : Options := {[ "uri" := VStr "m3u:gone.m3u8" ]}.

Definition step5_options : Options := {[ "step" := VStr "5" ]}.

Definition step7_options : Options := {[ "step" := VStr "7" ]}.

(** A step that turns the volume the other way. *)
Definition negative_step_options : Options := {[ "step" := VStr "-200" ]}.

(** An environment: the level of each line, the volume, and the moment the
    stop flag is set (as a length of the history), if any.  The polling
    thread never ends in time for a join.  No str of the installation needs
    more of [int()] than a plain numeral ("x" is refused), and no sleep is
    longer than a day. *)
Definition env_of (input : Z -> Result level) (volume : Z) (stop_from : option nat) : Env :=
  {| gpio_input := fun _ pin => input pin;
     playback_get_state := fun _ => Ok PLAYING;
     mixer_get_volume := fun _ => Ok (Some volume);
     playlists_lookup := fun _ uri =>
       Ok (if decide (uri = Some party_uri) then Some party else None);
     stop_is_set := fun h =>
       match stop_from with
       | Some n => Nat.leb n (length h)
       | None => false
       end;
     thread_alive := fun _ => true;
     int_of_str := fun _ => Raise ValueError;
     sleep_refused := fun _ => None |}.

(** bcm17 and bcm5 read LOW, every other line reads HIGH. *)
Definition pressed (pin : Z) : Result level :=
  Ok (if decide (pin = 17 \/ pin = 5) then LOW else HIGH).

(** Every line reads HIGH. *)
Definition released (pin : Z) : Result level := Ok HIGH.

(** Reading bcm17 fails, as [GPIO.input] does for a channel that is not set
    up. *)
Definition broken (pin : Z) : Result level :=
  if decide (pin = 17)
  then Raise (RuntimeError "You must setup() the GPIO channel first")
  else Ok HIGH.

Definition button17 (name : string) : Settings :=
  {| event := name; active := "active_low"; bouncetime := 200; options := ∅ |}.

Definition button27 : Settings :=
  {| event := "prev"; active := "active_high"; bouncetime := 150; options := ∅ |}.

Definition rotary (name : string) : Settings :=
  {| event := name; active := "active_low"; bouncetime := 10;
     options := {[ "rotenc_id" := VStr "vol" ]} |}.

Definition vol_encoder : RotEncoder :=
  {| pins := [5; 6]; events := ["volume_up"; "volume_down"];
     decoder := {| Quadrature.qstate := Some 3 |} |}.

(** The object after __init__, every line at HIGH; bcm17 is bound to the
    event [name]. *)
Definition frontend (name : string) : Frontend RotEncoder :=
  {| pin_settings :=
       [(17, button17 name); (5, rotary "volume_up"); (6, rotary "volume_down");
        (27, button27)];
     rot_encoders := [(VStr "vol", vol_encoder)];
     last_states := {[ 17 := HIGH; 5 := HIGH; 6 := HIGH; 27 := HIGH ]};
     polling_thread := false |}.

(** The same with the lines in another order, the encoder first. *)
Definition frontend_rotary_first : Frontend RotEncoder :=
  {| pin_settings :=
       [(5, rotary "volume_up"); (6, rotary "volume_down"); (17, button17 "next");
        (27, button27)];
     rot_encoders := [(VStr "vol", vol_encoder)];
     last_states := {[ 17 := HIGH; 5 := HIGH; 6 := HIGH; 27 := HIGH ]};
     polling_thread := false |}.

(** The object while the button on bcm17 is held down. *)
Definition frontend_held : Frontend RotEncoder :=
  set_last_states (fun m => <[17 := LOW]> m) (frontend "next").
End Examples.

(** * The configuration of the small installation *)

Module InitExamples.
Import RotEncoderModel Examples.

(** RPi.GPIO accepts every call; bcm17 and bcm5 read LOW, the other lines
    HIGH; [int()] refuses "x", the only str of the sections below that is
    not a plain numeral. *)
Definition board : InitEnv :=
  {| gpio_accepts := fun _ _ => Ok tt;
     gpio_level := fun _ pin => Ok (if decide (pin = 17 \/ pin = 5) then LOW else HIGH);
     init_int_of_str := fun _ => Raise ValueError |}.

(** The section [raspberry-gpio] of the configuration: the extension
    switch, an unused line, two buttons and the two lines of the encoder. *)
Definition section : list (string * option Settings) :=
  [("enabled", None); ("bcm4", None);
   ("bcm17", Some (button17 "next"));
   ("bcm5", Some (rotary "volume_up")); ("bcm6", Some (rotary "volume_down"));
   ("bcm27", Some button27)].

(** The same section with a key that has no line number. *)
Definition section_bad_key : list (string * option Settings) :=
  [("bcm17", Some (button17 "next")); ("bcmx", None); ("bcm27", Some button27)].
End InitExamples.

(** * Properties *)

(** ** Sequencing *)

Section Sequencing.
Context {S : Type}.

Lemma bind_Ok {A B} (m : M S A) (f : A -> M S B) env h s a s1 ev1 :
  m env h s = (Ok a, s1, ev1) ->
  bind m f env h s =
    (let '(r, s2, ev2) := f a env (h ++ ev1) s1 in (r, s2, ev1 ++ ev2)).
Proof. intros Hm. unfold bind. rewrite Hm. reflexivity. Qed.

Lemma bind_Raise {A B} (m : M S A) (f : A -> M S B) env h s e s1 ev1 :
  m env h s = (Raise e, s1, ev1) ->
  bind m f env h s = (Raise e, s1, ev1).
Proof. intros Hm. unfold bind. rewrite Hm. reflexivity. Qed.

Lemma triple_eta {A B C} (x : A * B * C) : x = (x.1.1, x.1.2, x.2).
Proof. destruct x as [[a b] c]. reflexivity. Defined.

Lemma for_each_app {A} (l1 l2 : list A) (body : A -> M S unit) env h s :
  for_each (l1 ++ l2) body env h s =
    (for_each l1 body ;; for_each l2 body) env h s.
Proof.
  revert h s. induction l1 as [|x l1 IH]; intros h s; simpl.
  - unfold bind, ret. rewrite app_nil_r.
    destruct (for_each l2 body env h s) as [[r s2] ev2]. reflexivity.
  - unfold bind in *.
    destruct (body x env h s) as [[[[]|e] s1] ev1]; [|reflexivity].
    rewrite IH.
    destruct (for_each l1 body env (h ++ ev1) s1) as [[[[]|e] s2] ev2]; [|reflexivity].
    rewrite <- app_assoc.
    destruct (for_each l2 body env (h ++ ev1 ++ ev2) s2) as [[r s3] ev3].
    rewrite app_assoc. reflexivity.
Qed.
End Sequencing.

(** ** The volume handlers *)

Lemma config_step_run {S} (config : Options) env h (s : S) :
  config_step config env h s = (configured_step env config, s, []).
Proof.
  unfold config_step, builtin, configured_step.
  destruct (config !! "step") as [v|]; reflexivity.
Qed.

Lemma handle_volume_up_run {S} (config : Options) env h (s : S) step v :
  configured_step env config = Ok step ->
  mixer_get_volume env h = Ok (Some v) ->
  handle_volume_up config env h s =
    (Ok tt, s, [EvCore GetVolume; EvCore (SetVolume (Z.min (v + step) 100))]).
Proof.
  intros Hstep Hvol.
  unfold handle_volume_up, bind. rewrite config_step_run, Hstep.
  unfold get_volume, external. rewrite app_nil_r, Hvol. reflexivity.
Qed.

Lemma handle_volume_down_run {S} (config : Options) env h (s : S) step v :
  configured_step env config = Ok step ->
  mixer_get_volume env h = Ok (Some v) ->
  handle_volume_down config env h s =
    (Ok tt, s, [EvCore GetVolume; EvCore (SetVolume (Z.max (v - step) 0))]).
Proof.
  intros Hstep Hvol.
  unfold handle_volume_down, bind. rewrite config_step_run, Hstep.
  unfold get_volume, external. rewrite app_nil_r, Hvol. reflexivity.
Qed.

(** C4 (as the code has it): with the configured step [step] (the "step"
    option as [int()] reads it, 5 when the options have none) and from the
    volume [v], handle_volume_up calls set_volume(min(v + step, 100)) and
    handle_volume_down calls set_volume(max(v - step, 0)), and nothing
    else is set.  The first never exceeds 100 and the second never goes
    below 0.  From [v] in [0, 100] both stay in [0, 100] when the step is
    not negative; a negative step beyond [v] takes the volume up sets below
    0, and one beyond [100 - v] takes the volume down sets above 100.  With
    step 5, up from 98 sets 100 and down from 3 sets 0. *)
Theorem volume_handlers_clamp {S} (config : Options) env h (s : S) step v :
  configured_step env config = Ok step ->
  mixer_get_volume env h = Ok (Some v) ->
  0 <= v <= 100 ->
  handle_volume_up config env h s =
    (Ok tt, s, [EvCore GetVolume; EvCore (SetVolume (Z.min (v + step) 100))])
  /\ handle_volume_down config env h s =
    (Ok tt, s, [EvCore GetVolume; EvCore (SetVolume (Z.max (v - step) 0))])
  /\ (config !! "step" = None -> step = 5)
  /\ (forall z, config !! "step" = Some (VInt z) -> step = z)
  /\ (forall str z, config !! "step" = Some (VStr str) -> plain_numeral str = Some z ->
        step = z)
  /\ Z.min (v + step) 100 <= 100
  /\ 0 <= Z.max (v - step) 0
  /\ (0 <= step -> 0 <= Z.min (v + step) 100 /\ Z.max (v - step) 0 <= 100)
  /\ (step < - v -> Z.min (v + step) 100 < 0)
  /\ (step < v - 100 -> 100 < Z.max (v - step) 0)
  /\ (step = 5 -> v = 98 -> Z.min (v + step) 100 = 100)
  /\ (step = 5 -> v = 3 -> Z.max (v - step) 0 = 0).
Proof.
  intros Hstep Hvol Hv.
  split; [exact (handle_volume_up_run config env h s step v Hstep Hvol)|].
  split; [exact (handle_volume_down_run config env h s step v Hstep Hvol)|].
  unfold configured_step in Hstep.
  split; [intros Hnone; rewrite Hnone in Hstep; congruence|].
  split; [intros z Hz; rewrite Hz in Hstep; cbn in Hstep; congruence|].
  split.
  { intros str z Hz Hnum. rewrite Hz in Hstep. cbn [py_int] in Hstep.
    rewrite Hnum in Hstep. congruence. }
  repeat split; intros; lia.
Qed.

(** ** dispatch_input *)

Lemma dispatch_input_run {S} (event : string) (opts : Options) env h (s : S) :
  dispatch_input event opts env h s =
    (let '(r, s', evs) :=
       call_handler ("handle_" +:+ event) opts env (h ++ [EvDispatch event opts]) s in
     (report_missing event r, s', EvDispatch event opts :: evs)).
Proof.
  unfold dispatch_input, bind, try_except, emit.
  destruct (call_handler _ opts env _ s) as [[[[]|e] s'] evs]; [reflexivity|].
  destruct e; try reflexivity.
  unfold raise. rewrite app_nil_r. reflexivity.
Qed.

(** ** The playlist handler *)

(** C7: dispatching "playlist" with a "uri" option whose lookup gives the
    playlist [p] makes exactly the calls lookup, tracklist.clear(),
    tracklist.add(tracks of p) and playback.play(), in this order; whatever
    the queue held before, it then holds the tracks of [p], in order. *)
Theorem playlist_replaces_tracklist {S} (config : Options) env h (s : S) uri p :
  config !! "uri" = Some uri ->
  playlists_lookup env (h ++ [EvDispatch "playlist" config]) (Some uri) = Ok (Some p) ->
  dispatch_input "playlist" config env h s =
    (Ok tt, s,
     [EvDispatch "playlist" config; EvCore (Lookup (Some uri)); EvCore TracklistClear;
      EvCore (TracklistAdd (tracks p)); EvCore Play])
  /\ forall prior,
      tracklist_after
        [EvDispatch "playlist" config; EvCore (Lookup (Some uri)); EvCore TracklistClear;
         EvCore (TracklistAdd (tracks p)); EvCore Play] prior = tracks p.
Proof.
  intros Huri Hlookup. split; [|reflexivity].
  rewrite dispatch_input_run. unfold call_handler.
  change (getattr_handler ("handle_" +:+ "playlist")) with (Some (handle_playlist (S := S))).
  unfold handle_playlist, bind, lookup_playlist, external, core_call, emit, ret.
  rewrite Huri, Hlookup. reflexivity.
Qed.

(** C10: dispatch_input turns an AttributeError of [getattr(self,
    handler_name)(options)] into the RuntimeError that reports a missing
    handler, and lets every other outcome through with the effects of the
    handler; the AttributeError of a handler that exists is reported in the
    same way, as for handle_playlist when the lookup finds no playlist. *)
Theorem dispatch_input_converts_AttributeError {S} (event : string) (opts : Options)
    env h (s : S) :
  (forall r s' evs,
     call_handler ("handle_" +:+ event) opts env (h ++ [EvDispatch event opts]) s
       = (r, s', evs) ->
     (r = Raise AttributeError ->
      dispatch_input event opts env h s
        = (Raise (missing_handler event), s', EvDispatch event opts :: evs))
     /\ (r <> Raise AttributeError ->
         dispatch_input event opts env h s = (r, s', EvDispatch event opts :: evs)))
  /\ (event = "playlist" ->
      playlists_lookup env (h ++ [EvDispatch event opts]) (opts !! "uri") = Ok None ->
      is_Some (getattr_handler (S := S) ("handle_" +:+ event))
      /\ dispatch_input event opts env h s
         = (Raise (RuntimeError "Could not find input handler for event: playlist"), s,
            [EvDispatch event opts; EvCore (Lookup (opts !! "uri")); EvCore TracklistClear])).
Proof.
  split.
  - intros r s' evs Hcall. rewrite dispatch_input_run, Hcall. split.
    + intros ->. reflexivity.
    + intros Hne. destruct r as [[]|e]; [reflexivity|].
      destruct e; try reflexivity. congruence.
  - intros -> Hlookup. split; [eexists; reflexivity|].
    rewrite dispatch_input_run. unfold call_handler.
    change (getattr_handler ("handle_" +:+ "playlist")) with (Some (handle_playlist (S := S))).
    unfold handle_playlist, bind, lookup_playlist, external, core_call, emit, raise.
    rewrite Hlookup. reflexivity.
Qed.

(** ** Effects of the handlers *)

Section PureSteps.
Context {S : Type}.

Lemma bind_silent {A B} (m : M S A) (f : A -> M S B) env h s a s1 :
  m env h s = (Ok a, s1, []) ->
  bind m f env h s = f a env h s1.
Proof.
  intros Hm. unfold bind. rewrite Hm, app_nil_r.
  destruct (f a env h s1) as [[r s2] ev2]. reflexivity.
Qed.

Lemma bind_one {A B} (m : M S A) (f : A -> M S B) env h s a s1 ev :
  m env h s = (Ok a, s1, [ev]) ->
  bind m f env h s =
    (let '(r, s2, ev2) := f a env (h ++ [ev]) s1 in (r, s2, ev :: ev2)).
Proof. intros Hm. unfold bind. rewrite Hm. reflexivity. Qed.
End PureSteps.

Lemma call_handler_core {S} (name : string) (opts : Options) env h (s : S) r s' evs :
  call_handler name opts env h s = (r, s', evs) ->
  s' = s /\ Forall is_core evs.
Proof.
  unfold call_handler, getattr_handler.
  repeat case_decide; unfold handle_play_pause, handle_play_stop, handle_next,
    handle_prev, handle_volume_up, handle_volume_down, handle_playlist,
    bind, get_state, get_volume, lookup_playlist, external, config_step, builtin,
    as_number, core_call, emit, raise, ret;
  repeat match goal with
         | |- context [match ?x with _ => _ end] =>
             lazymatch x with
             | context [match _ with _ => _ end] => fail
             | _ => destruct x eqn:?
             end
         end;
  intros [= <- <- <-]; split; try reflexivity;
  repeat constructor.
Qed.

Lemma dispatch_input_effects {S} (event : string) (opts : Options) env h (s : S) r s' evs :
  dispatch_input event opts env h s = (r, s', evs) ->
  s' = s /\ exists evs', evs = EvDispatch event opts :: evs' /\ Forall is_core evs'.
Proof.
  rewrite dispatch_input_run.
  destruct (call_handler _ opts env _ s) as [[r0 s0] evs0] eqn:Hcall.
  apply call_handler_core in Hcall as [-> Hcore].
  intros [= <- <- <-]. split; [reflexivity|]. eauto.
Qed.

Lemma dispatched_core (evs : list Event) :
  Forall is_core evs -> dispatched evs = [].
Proof.
  induction 1 as [|ev evs Hev _ IH]; [reflexivity|].
  destruct ev; try contradiction. exact IH.
Qed.

(** ** The debounce wait *)

Lemma time_sleep_cases {S} (secs : Q) env h (s : S) :
  time_sleep secs env h s = (Ok tt, s, [EvSleep secs])
  \/ exists e, time_sleep secs env h s = (Raise e, s, []).
Proof.
  unfold time_sleep.
  destruct (clock_overflows secs); [right; eauto|].
  destruct (Qnum secs <? 0); [right; eauto|].
  destruct (within_a_day secs); [left; reflexivity|].
  destruct (sleep_refused env secs); [right; eauto|left; reflexivity].
Qed.

Lemma time_sleep_state {S} (secs : Q) env h h' (s : S) (s' : unit) :
  time_sleep secs env h s =
    ((time_sleep secs env h' s').1.1, s,
     match (time_sleep secs env h' s').1.1 with Ok _ => [EvSleep secs] | Raise _ => [] end).
Proof.
  unfold time_sleep.
  destruct (clock_overflows secs); [reflexivity|].
  destruct (Qnum secs <? 0); [reflexivity|].
  destruct (within_a_day secs); [reflexivity|].
  destruct (sleep_refused env secs); reflexivity.
Qed.

Lemma debounce_wait_run {RotEncoder} env h (s : Frontend RotEncoder) settings :
  debounce_wait settings env h s =
    match debounce_slept env settings with
    | Ok secs => (Ok tt, s, [EvSleep secs])
    | Raise e => (Raise e, s, [])
    end.
Proof.
  unfold debounce_wait, debounce_slept, bind, lift_result.
  destruct (debounce settings) as [secs|e]; [|reflexivity].
  rewrite (time_sleep_state secs env (h ++ []) [] s tt).
  destruct (time_sleep secs env [] tt).1.1 as [[]|e]; reflexivity.
Qed.

Lemma bouncetime_max_converts : bouncetime_max < float_int_limit.
Proof. vm_compute. reflexivity. Qed.

Lemma debounce_slept_sure env settings :
  0 <= bouncetime settings <= bouncetime_max ->
  debounce_slept env settings = Ok (bouncetime settings # 1000).
Proof.
  intros Hb. pose proof bouncetime_max_converts as Hlim.
  unfold debounce_slept, debounce, truediv_1000.
  replace (Z.abs (bouncetime settings) <? float_int_limit) with true
    by (symmetry; apply Z.ltb_lt; lia).
  unfold time_sleep, clock_overflows, within_a_day. cbn [Qnum Qden].
  unfold bouncetime_max in Hb.
  replace (2 ^ 63 * 1000 <=? Z.abs (bouncetime settings) * 10 ^ 9) with false
    by (symmetry; apply Z.leb_gt; lia).
  replace (bouncetime settings <? 0) with false by (symmetry; apply Z.ltb_ge; lia).
  replace (bouncetime settings <=? 86400 * 1000) with true
    by (symmetry; apply Z.leb_le; lia).
  reflexivity.
Qed.

Lemma debounce_slept_divides env settings secs :
  debounce_slept env settings = Ok secs -> debounce settings = Ok secs.
Proof.
  unfold debounce_slept. destruct (debounce settings) as [q|e]; [|discriminate].
  destruct (time_sleep q env [] tt).1.1; congruence.
Qed.

Lemma debounce_slept_length env settings secs :
  debounce_slept env settings = Ok secs -> secs = (bouncetime settings # 1000).
Proof.
  unfold debounce_slept, debounce, truediv_1000.
  destruct (Z.abs (bouncetime settings) <? float_int_limit); [|discriminate].
  destruct (time_sleep _ env [] tt).1.1; congruence.
Qed.

(** ** The button path *)

Section ButtonPath.
Context {RotEncoder : Type}.
Variable pins : RotEncoder -> list Z.
Variable get_event : M RotEncoder (option string).

Implicit Types (s : Frontend RotEncoder) (settings : Settings).

Lemma gpio_event_button env h s pin settings :
  bound_line s pin settings ->
  in_no_encoder pins s pin ->
  event settings <> "" ->
  gpio_event pins get_event pin env h s =
    (let '(r, s', evs) :=
       dispatch_input (event settings) (options settings) env
         (h ++ [EvLog (LogGpio pin (event settings) (options settings))]) s in
     (r, s', EvLog (LogGpio pin (event settings) (options settings)) :: evs)).
Proof.
  intros [i Hbound] Henc Hev. unfold gpio_event.
  rewrite (bind_silent _ _ env h s settings s)
    by (unfold getitem; rewrite Hbound; reflexivity).
  rewrite (bind_silent _ _ env h s None s)
    by (unfold find_pin_rotenc, gets; rewrite Henc; reflexivity).
  rewrite (bind_silent _ _ env h s (Some (event settings)) s) by reflexivity.
  unfold truthy. rewrite decide_False by exact Hev.
  rewrite (bind_one _ _ env h s tt s (EvLog (LogGpio pin (event settings) (options settings))))
    by reflexivity.
  reflexivity.
Qed.

Lemma poll_line_button env h s pin settings state last :
  options settings !! "rotenc_id" = None ->
  gpio_input env h pin = Ok state ->
  last_states s !! pin = Some last ->
  poll_line pins get_event (pin, settings) env h s =
    (let '(r, s', evs) :=
       poll_button pins get_event pin settings state last env (h ++ [EvInput pin]) s in
     (r, s', EvInput pin :: evs)).
Proof.
  intros Hopt Hread Hlast. unfold poll_line.
  rewrite (bind_one _ _ env h s state s (EvInput pin))
    by (unfold GPIO_input, external; rewrite Hread; reflexivity).
  rewrite (bind_silent _ _ env _ s last s)
    by (unfold last_states_get; rewrite Hlast; reflexivity).
  rewrite Hopt. reflexivity.
Qed.

Lemma poll_button_idle env h s pin settings state last :
  activating_edge settings state last = false ->
  poll_button pins get_event pin settings state last env h s =
    (Ok tt, set_last_states (fun m => <[pin := state]> m) s, []).
Proof.
  intros Hedge. unfold poll_button. rewrite Hedge.
  rewrite (bind_silent _ _ env h s tt s) by reflexivity.
  reflexivity.
Qed.

Lemma poll_button_edge env h s pin settings state last :
  activating_edge settings state last = true ->
  bound_line s pin settings ->
  in_no_encoder pins s pin ->
  event settings <> "" ->
  poll_button pins get_event pin settings state last env h s =
    (let log := EvLog (LogGpio pin (event settings) (options settings)) in
     let '(r, _, evs) :=
       dispatch_input (event settings) (options settings) env (h ++ [log]) s in
     match r with
     | Ok _ =>
         match debounce_slept env settings with
         | Ok secs =>
             (Ok tt, set_last_states (fun m => <[pin := state]> m) s,
              log :: evs ++ [EvSleep secs])
         | Raise e => (Raise e, s, log :: evs)
         end
     | Raise e => (Raise e, s, log :: evs)
     end).
Proof.
  intros Hedge Hbound Henc Hev. unfold poll_button. rewrite Hedge.
  unfold bind at 1. unfold bind at 1.
  rewrite (gpio_event_button env h s pin settings Hbound Henc Hev).
  destruct (dispatch_input _ _ env _ s) as [[r s'] evs] eqn:Hd.
  apply dispatch_input_effects in Hd as [-> _].
  destruct r as [[]|e]; [|reflexivity].
  rewrite debounce_wait_run.
  destruct (debounce_slept env settings) as [secs|e].
  - unfold last_states_set, modify. simpl. rewrite app_nil_r. reflexivity.
  - rewrite app_nil_r. reflexivity.
Qed.

Lemma activating_edge_active_level settings state last a :
  active_level (active settings) = Some a ->
  activating_edge settings state last = bool_decide (last = opposite a /\ state = a).
Proof.
  unfold active_level. intros Ha.
  destruct (decide (active settings = "active_low")) as [Hl|Hl].
  - injection Ha as <-. unfold activating_edge. rewrite Hl.
    destruct last, state; reflexivity.
  - destruct (decide (active settings = "active_high")) as [Hh|Hh]; [|discriminate].
    injection Ha as <-. unfold activating_edge. rewrite Hh.
    destruct last, state; reflexivity.
Qed.

(** One sampling of a button line: what is dispatched, and what becomes
    of the object. *)
Lemma button_sampling env h s pin settings state last a r s' evs :
  options settings !! "rotenc_id" = None ->
  bound_line s pin settings ->
  in_no_encoder pins s pin ->
  event settings <> "" ->
  gpio_input env h pin = Ok state ->
  last_states s !! pin = Some last ->
  active_level (active settings) = Some a ->
  poll_line pins get_event (pin, settings) env h s = (r, s', evs) ->
  dispatched evs =
    (if bool_decide (last = opposite a /\ state = a)
     then [(event settings, options settings)]
     else [])
  /\ s' = match r with
          | Ok _ => set_last_states (fun m => <[pin := state]> m) s
          | Raise _ => s
          end.
Proof.
  intros Hopt Hbound Henc Hev Hread Hlast Ha.
  rewrite (poll_line_button env h s pin settings state last Hopt Hread Hlast).
  rewrite <- (activating_edge_active_level settings state last a Ha).
  destruct (activating_edge settings state last) eqn:Hedge.
  - rewrite (poll_button_edge env _ s pin settings state last Hedge Hbound Henc Hev).
    cbv zeta.
    destruct (dispatch_input _ _ env _ s) as [[r0 s0] evs0] eqn:Hd.
    apply dispatch_input_effects in Hd as [_ (evs1 & -> & Hcore)].
    assert (Hnone : forall tl, Forall is_core tl -> dispatched tl = []) by apply dispatched_core.
    destruct r0 as [[]|e]; [destruct (debounce_slept env settings) as [secs|e]|];
      intros [= <- <- <-]; (split; [|reflexivity]); cbn [dispatched omap]; cbn.
    + f_equal. change (dispatched (evs1 ++ [EvSleep secs]) = []).
      unfold dispatched. rewrite omap_app. fold (dispatched evs1).
      rewrite (Hnone evs1 Hcore). reflexivity.
    + f_equal. apply (Hnone evs1 Hcore).
    + f_equal. apply (Hnone evs1 Hcore).
  - rewrite (poll_button_idle env _ s pin settings state last Hedge).
    intros [= <- <- <-]. split; reflexivity.
Qed.

(** C3: for a button line (no "rotenc_id" option, the pin in no encoder,
    an event name that is not empty) whose polarity names the active level
    [a] (LOW for "active_low", HIGH for "active_high"), sampling the line
    calls dispatch_input once, with the line's event and options, when the
    level went from the inactive level to [a], and does not call it
    otherwise: not on the releasing edge and not on an unchanged level.
    The level it went from is the one observed at the sampling before: a
    sampling that completes stores the level it read (and changes nothing
    else; one that raises changes nothing), and the sampling after it, in
    any environment, dispatches exactly when the level read before was the
    inactive one and the level read now is [a], so that a button held down
    dispatches once. *)
Theorem button_dispatches_on_activating_edge env h s pin settings state last a r s' evs :
  options settings !! "rotenc_id" = None ->
  bound_line s pin settings ->
  in_no_encoder pins s pin ->
  event settings <> "" ->
  gpio_input env h pin = Ok state ->
  last_states s !! pin = Some last ->
  active_level (active settings) = Some a ->
  poll_line pins get_event (pin, settings) env h s = (r, s', evs) ->
  dispatched evs =
    (if bool_decide (last = opposite a /\ state = a)
     then [(event settings, options settings)]
     else [])
  /\ s' = match r with
          | Ok _ => set_last_states (fun m => <[pin := state]> m) s
          | Raise _ => s
          end
  /\ forall env2 h2 state2 r2 s2 evs2,
       r = Ok tt ->
       gpio_input env2 h2 pin = Ok state2 ->
       poll_line pins get_event (pin, settings) env2 h2 s' = (r2, s2, evs2) ->
       dispatched evs2 =
         (if bool_decide (state = opposite a /\ state2 = a)
          then [(event settings, options settings)]
          else [])
       /\ (state2 = state -> dispatched evs2 = []).
Proof.
  intros Hopt Hbound Henc Hev Hread Hlast Ha Hrun.
  destruct (button_sampling env h s pin settings state last a r s' evs
              Hopt Hbound Henc Hev Hread Hlast Ha Hrun) as [Hd Hs'].
  split; [exact Hd|]. split; [exact Hs'|].
  intros env2 h2 state2 r2 s2 evs2 -> Hread2 Hrun2. subst s'.
  assert (Hd2 : dispatched evs2 =
                (if bool_decide (state = opposite a /\ state2 = a)
                 then [(event settings, options settings)]
                 else [])).
  { refine (proj1 (button_sampling env2 h2 _ pin settings state2 state a r2 s2 evs2
                     Hopt _ _ Hev Hread2 _ Ha Hrun2)).
    - exact Hbound.
    - exact Henc.
    - cbn. apply lookup_insert_eq. }
  split; [exact Hd2|].
  intros ->. rewrite Hd2. rewrite bool_decide_eq_false_2; [reflexivity|].
  intros [H1 H2]. rewrite H2 in H1. destruct a; discriminate.
Qed.
End ButtonPath.

(** ** What a computation emits *)

Section Emits.
Context {S : Type}.
Implicit Types P : Event -> Prop.

Lemma emits_ret {A} P (a : A) : emits (S := S) P (ret a).
Proof. intros env h s r s' evs [= <- <- <-]. constructor. Qed.

Lemma emits_raise {A} P e : emits (S := S) (A := A) P (raise e).
Proof. intros env h s r s' evs [= <- <- <-]. constructor. Qed.

Lemma emits_gets {A} P (f : S -> A) : emits P (gets f).
Proof. intros env h s r s' evs [= <- <- <-]. constructor. Qed.

Lemma emits_modify P (f : S -> S) : emits P (modify f).
Proof. intros env h s r s' evs [= <- <- <-]. constructor. Qed.

Lemma emits_emit P ev : P ev -> emits (S := S) P (emit ev).
Proof. intros Hev env h s r s' evs [= <- <- <-]. repeat constructor. exact Hev. Qed.

Lemma emits_external {A} P ev (answer : Env -> History -> Result A) :
  P ev -> emits (S := S) P (external ev answer).
Proof. intros Hev env h s r s' evs [= <- <- <-]. repeat constructor. exact Hev. Qed.

Lemma emits_bind {A B} P (m : M S A) (f : A -> M S B) :
  emits P m -> (forall a, emits P (f a)) -> emits P (bind m f).
Proof.
  intros Hm Hf env h s r s' evs. unfold bind.
  destruct (m env h s) as [[[a|e] s1] ev1] eqn:Em.
  - destruct (f a env (h ++ ev1) s1) as [[r2 s2] ev2] eqn:Ef.
    intros [= <- <- <-]. apply Forall_app. split; [eapply Hm|eapply Hf]; eauto.
  - intros [= <- <- <-]. eapply Hm; eauto.
Qed.

Lemma emits_weaken {A} P (Q : Event -> Prop) (m : M S A) :
  (forall ev, P ev -> Q ev) -> emits P m -> emits Q m.
Proof.
  intros HPQ Hm env h s r s' evs Hrun.
  eapply Forall_impl; [eapply Hm; eauto|exact HPQ].
Qed.

Lemma emits_for_each {A} (P : A -> Event -> Prop) (l : list A) (body : A -> M S unit) :
  (forall x, x ∈ l -> emits (P x) (body x)) ->
  emits (fun ev => exists x, x ∈ l /\ P x ev) (for_each l body).
Proof.
  induction l as [|x l IH]; intros Hbody; simpl.
  - apply emits_ret.
  - apply emits_bind.
    + eapply emits_weaken; [|apply Hbody; left].
      intros ev Hev. exists x. split; [left|exact Hev].
    + intros _. eapply emits_weaken; [|apply IH].
      * intros ev (y & Hy & Hev). exists y. split; [right; exact Hy|exact Hev].
      * intros y Hy. apply Hbody. right. exact Hy.
Qed.

Lemma emits_dispatch_input P event opts :
  (forall ev, is_core ev -> P ev) -> P (EvDispatch event opts) ->
  emits (S := S) P (dispatch_input event opts).
Proof.
  intros Hcore Hd env h s r s' evs Hrun.
  apply dispatch_input_effects in Hrun as [_ (evs' & -> & Hevs)].
  constructor; [exact Hd|]. eapply Forall_impl; [exact Hevs|exact Hcore].
Qed.

Lemma emits_time_sleep P secs : P (EvSleep secs) -> emits (S := S) P (time_sleep secs).
Proof.
  intros Hs env h s r s' evs Hrun.
  destruct (time_sleep_cases secs env h s) as [Hok|[e He]].
  - rewrite Hok in Hrun. injection Hrun as <- <- <-. repeat constructor. exact Hs.
  - rewrite He in Hrun. injection Hrun as <- <- <-. constructor.
Qed.
End Emits.

(** ** Where the loop sleeps *)

Section Sleeps.
Context {RotEncoder : Type}.
Variable pins : RotEncoder -> list Z.
Variable get_event : M RotEncoder (option string).

(** [RotEncoder.get_event()] does not sleep. *)
Hypothesis get_event_no_sleep : emits (fun ev => ~ is_sleep ev) get_event.

Implicit Types (P : Event -> Prop) (settings : Settings).

Lemma emits_getitem {K V} `{EqDecision K} P
    (field : Frontend RotEncoder -> list (K * V)) (key : K) :
  emits P (getitem field key).
Proof.
  intros env h s r s' evs. unfold getitem.
  destruct (dict_index key (field s)) as [[i [k v]]|]; intros [= <- <- <-]; constructor.
Qed.

Lemma emits_getitem_ref {K V} `{EqDecision K} P
    (field : Frontend RotEncoder -> list (K * V)) (key : K) :
  emits P (getitem_ref field key).
Proof.
  intros env h s r s' evs. unfold getitem_ref.
  destruct (dict_index key (field s)) as [[i kv]|]; intros [= <- <- <-]; constructor.
Qed.

Lemma emits_last_states_get P pin : emits P (last_states_get (RotEncoder := RotEncoder) pin).
Proof.
  intros env h s r s' evs. unfold last_states_get.
  destruct (last_states s !! pin); intros [= <- <- <-]; constructor.
Qed.

Lemma emits_encoder_get_event P i :
  (forall ev, ~ is_sleep ev -> P ev) ->
  emits P (encoder_get_event get_event i).
Proof.
  intros HP env h s r s' evs. unfold encoder_get_event.
  destruct (rot_encoders s !! i) as [[key encoder]|]; [|intros [= <- <- <-]; constructor].
  destruct (get_event env h encoder) as [[r0 e'] evs0] eqn:Hg.
  intros [= <- <- <-].
  eapply Forall_impl; [eapply get_event_no_sleep; eauto|exact HP].
Qed.

Lemma emits_dispatch_quiet P event opts :
  (forall ev, ~ is_sleep ev -> P ev) ->
  emits (S := Frontend RotEncoder) P (dispatch_input event opts).
Proof.
  intros HP. apply emits_dispatch_input.
  - intros [] Hc; try contradiction. apply HP. intros [].
  - apply HP. intros [].
Qed.

Lemma emits_gpio_event P pin :
  (forall ev, ~ is_sleep ev -> P ev) ->
  emits P (gpio_event pins get_event pin).
Proof.
  intros HP. unfold gpio_event.
  apply emits_bind; [apply emits_getitem|intros settings].
  apply emits_bind; [apply emits_gets|intros encoder].
  apply emits_bind.
  { destruct encoder; [apply emits_encoder_get_event; exact HP|apply emits_ret]. }
  intros event1. destruct (truthy event1); [|apply emits_ret].
  apply emits_bind; [apply emits_emit, HP; intros []|intros _].
  apply emits_dispatch_quiet, HP.
Qed.

Lemma emits_poll_rotary P pin settings rotenc_id state last :
  (forall ev, ~ is_sleep ev -> P ev) ->
  emits P (poll_rotary get_event pin settings rotenc_id state last).
Proof.
  intros HP. unfold poll_rotary.
  apply emits_bind; [|intros _; apply emits_modify].
  destruct (decide (state <> last)); [|apply emits_ret].
  apply emits_bind; [apply emits_getitem_ref|intros i].
  apply emits_bind; [apply emits_encoder_get_event, HP|intros event1].
  destruct (truthy event1); [|apply emits_ret].
  apply emits_bind; [apply emits_emit, HP; intros []|intros _].
  apply emits_dispatch_quiet, HP.
Qed.

Lemma emits_poll_button P pin settings state last :
  (forall ev, ~ is_sleep ev -> P ev) ->
  (forall secs, debounce settings = Ok secs -> P (EvSleep secs)) ->
  emits P (poll_button pins get_event pin settings state last).
Proof.
  intros HP Hs. unfold poll_button.
  apply emits_bind; [|intros _; apply emits_modify].
  destruct (activating_edge settings state last); [|apply emits_ret].
  apply emits_bind; [apply emits_gpio_event, HP|intros _].
  intros env h s r s' evs. rewrite debounce_wait_run.
  destruct (debounce_slept env settings) as [secs|e] eqn:Hslept;
    intros [= <- <- <-]; repeat constructor.
  apply Hs, (debounce_slept_divides env), Hslept.
Qed.

Lemma debounce_of_quiet settings ev : ~ is_sleep ev -> debounce_of settings ev.
Proof. intros Hq secs ->. destruct Hq. exact I. Qed.

Lemma emits_poll_line pin settings :
  emits (debounce_of settings) (poll_line pins get_event (pin, settings)).
Proof.
  unfold poll_line.
  apply emits_bind; [apply emits_external, debounce_of_quiet; intros []|intros state].
  apply emits_bind; [apply emits_last_states_get|intros last].
  destruct (options settings !! "rotenc_id") as [rotenc_id|] eqn:Hopt.
  - apply emits_poll_rotary, debounce_of_quiet.
  - apply emits_poll_button; [apply debounce_of_quiet|].
    intros secs Hdiv secs' [= <-]. split; [exact Hopt|exact Hdiv].
Qed.

(** C5: sampling a line that has a "rotenc_id" option performs no sleep,
    whatever the levels and whatever the handlers do; and every sleep
    performed within a polling pass is the debounce wait of a line of
    [pin_settings] without a "rotenc_id" option.  [get_event()] of the
    encoder class is taken not to sleep. *)
Theorem rotary_lines_are_not_debounced env h (s : Frontend RotEncoder) :
  (forall pin settings r s' evs,
     is_Some (options settings !! "rotenc_id") ->
     poll_line pins get_event (pin, settings) env h s = (r, s', evs) ->
     forall ev, ev ∈ evs -> ~ is_sleep ev)
  /\ (forall r s' evs secs,
        poll_pass pins get_event env h s = (r, s', evs) ->
        EvSleep secs ∈ evs ->
        exists pin settings,
          (pin, settings) ∈ pin_settings s
          /\ options settings !! "rotenc_id" = None
          /\ debounce settings = Ok secs).
Proof.
  split.
  - intros pin settings r s' evs [rotenc_id Hopt] Hrun ev Hin Hsleep.
    apply emits_poll_line in Hrun.
    rewrite Forall_forall in Hrun. specialize (Hrun ev Hin).
    destruct ev; try contradiction.
    destruct (Hrun secs eq_refl) as [Hnone _]. congruence.
  - intros r s' evs secs Hrun Hin.
    assert (Hpass : emits
              (fun ev => exists line, line ∈ pin_settings s /\ debounce_of line.2 ev)
              (for_each (pin_settings s) (poll_line pins get_event))).
    { apply emits_for_each. intros [pin settings] _. apply emits_poll_line. }
    unfold poll_pass in Hrun.
    rewrite (bind_silent _ _ env h s (pin_settings s) s) in Hrun by reflexivity.
    apply Hpass in Hrun. rewrite Forall_forall in Hrun.
    destruct (Hrun _ Hin) as ([pin settings] & Hline & Hdeb).
    destruct (Hdeb secs eq_refl) as [Hnone Hdiv].
    exists pin, settings. auto.
Qed.
End Sleeps.

(** ** The debounce wait within a pass *)

Section Debounce.
Context {RotEncoder : Type}.
Variable pins : RotEncoder -> list Z.
Variable get_event : M RotEncoder (option string).

Implicit Types (s : Frontend RotEncoder) (settings : Settings).

Lemma poll_pass_split env h0 s0 pre line post s evs_pre :
  pin_settings s0 = pre ++ line :: post ->
  for_each pre (poll_line pins get_event) env h0 s0 = (Ok tt, s, evs_pre) ->
  poll_pass pins get_event env h0 s0 =
    (let '(r, s', evs) :=
       for_each (line :: post) (poll_line pins get_event) env (h0 ++ evs_pre) s in
     (r, s', evs_pre ++ evs)).
Proof.
  intros Hlines Hpre. unfold poll_pass.
  rewrite (bind_silent _ _ env h0 s0 (pin_settings s0) s0) by reflexivity.
  rewrite Hlines, for_each_app.
  rewrite (bind_Ok _ _ env h0 s0 tt s evs_pre Hpre). reflexivity.
Qed.

(** C6: in a pass that reaches a button line on its activating edge, the
    line is sampled, dispatch_input is called at once (after the log
    line), and when it returns the loop sleeps for bouncetime / 1000
    seconds; every line after it in [pin_settings] is sampled only after
    that sleep, and the lines before it were sampled before.  The sleep
    takes place for every bouncetime from 0 to a day; when it does not
    (a negative or an overlong bouncetime), the pass ends there with the
    exception, no later line sampled. *)
Theorem debounce_blocks_the_pass env h0 s0 pre pin settings post s evs_pre
    state last evs_d :
  pin_settings s0 = pre ++ (pin, settings) :: post ->
  for_each pre (poll_line pins get_event) env h0 s0 = (Ok tt, s, evs_pre) ->
  options settings !! "rotenc_id" = None ->
  bound_line s pin settings ->
  in_no_encoder pins s pin ->
  event settings <> "" ->
  gpio_input env (h0 ++ evs_pre) pin = Ok state ->
  last_states s !! pin = Some last ->
  activating_edge settings state last = true ->
  dispatch_input (event settings) (options settings) env
    (h0 ++ evs_pre
       ++ [EvInput pin; EvLog (LogGpio pin (event settings) (options settings))]) s
    = (Ok tt, s, evs_d) ->
  let evs_call :=
    [EvInput pin; EvLog (LogGpio pin (event settings) (options settings))] ++ evs_d in
  (exists evs_h,
     evs_d = EvDispatch (event settings) (options settings) :: evs_h
     /\ Forall is_core evs_h)
  /\ (0 <= bouncetime settings <= bouncetime_max ->
      debounce_slept env settings = Ok (bouncetime settings # 1000))
  /\ poll_pass pins get_event env h0 s0 =
     match debounce_slept env settings with
     | Ok secs =>
         let evs_line := evs_call ++ [EvSleep secs] in
         let '(r, s', evs_post) :=
           for_each post (poll_line pins get_event) env (h0 ++ evs_pre ++ evs_line)
             (set_last_states (fun m => <[pin := state]> m) s) in
         (r, s', evs_pre ++ evs_line ++ evs_post)
     | Raise e => (Raise e, s, evs_pre ++ evs_call)
     end.
Proof.
  intros Hlines Hpre Hopt Hbound Henc Hev Hread Hlast Hedge Hd evs_call.
  split.
  { apply dispatch_input_effects in Hd as [_ Hd]. exact Hd. }
  split; [apply debounce_slept_sure|].
  rewrite (poll_pass_split env h0 s0 pre (pin, settings) post s evs_pre Hlines Hpre).
  cbn [for_each]. unfold bind at 1.
  rewrite (poll_line_button pins get_event env _ s pin settings state last Hopt Hread Hlast).
  rewrite (poll_button_edge pins get_event env _ s pin settings state last
             Hedge Hbound Henc Hev).
  cbv zeta. rewrite <- !app_assoc. cbn [app]. rewrite Hd.
  subst evs_call.
  destruct (debounce_slept env settings) as [secs|e]; [|reflexivity].
  cbn [app]. rewrite <- !app_assoc. cbn [app].
  destruct (for_each post _ env _ _) as [[r s'] evs_post].
  reflexivity.
Qed.
End Debounce.

(** ** Exceptions in the sampling loop *)

Section Exceptions.
Context {RotEncoder : Type}.
Variable pins : RotEncoder -> list Z.
Variable get_event : M RotEncoder (option string).

Implicit Types (s : Frontend RotEncoder) (settings : Settings).

Lemma dispatch_input_unmapped {S} (event : string) (opts : Options) env h (st : S) :
  getattr_handler (S := S) ("handle_" +:+ event) = None ->
  dispatch_input event opts env h st
    = (Raise (missing_handler event), st, [EvDispatch event opts]).
Proof.
  intros Hnone. rewrite dispatch_input_run. unfold call_handler. rewrite Hnone.
  reflexivity.
Qed.

(** Nothing in the [for] loop catches: an exception of one line ends the
    pass there. *)
Lemma poll_pass_raise env h0 s0 pre line post s evs_pre e s1 evs1 :
  pin_settings s0 = pre ++ line :: post ->
  for_each pre (poll_line pins get_event) env h0 s0 = (Ok tt, s, evs_pre) ->
  poll_line pins get_event line env (h0 ++ evs_pre) s = (Raise e, s1, evs1) ->
  poll_pass pins get_event env h0 s0 = (Raise e, s1, evs_pre ++ evs1).
Proof.
  intros Hlines Hpre Hline.
  rewrite (poll_pass_split pins get_event env h0 s0 pre line post s evs_pre Hlines Hpre).
  cbn [for_each].
  rewrite (bind_Raise _ _ env _ s e s1 evs1 Hline). reflexivity.
Qed.

(** Nothing in the [while] loop catches either. *)
Lemma poll_loop_raise env h s fuel e s1 evs :
  stop_is_set env h = false ->
  poll_pass pins get_event env (h ++ [EvIsSet]) s = (Raise e, s1, evs) ->
  _poll_loop pins get_event (S fuel) env h s = (Raise e, s1, EvIsSet :: evs).
Proof.
  intros Hstop Hpass. cbn [_poll_loop].
  rewrite (bind_one _ _ env h s false s EvIsSet)
    by (unfold is_set, external; rewrite Hstop; reflexivity).
  rewrite (bind_Raise _ _ env _ s e s1 evs Hpass). reflexivity.
Qed.

Lemma poll_line_read_fails env h s pin settings e :
  gpio_input env h pin = Raise e ->
  poll_line pins get_event (pin, settings) env h s = (Raise e, s, [EvInput pin]).
Proof.
  intros Hread. unfold poll_line.
  apply bind_Raise. unfold GPIO_input, external. rewrite Hread. reflexivity.
Qed.

Lemma poll_line_rotary_unmapped env h s pin settings rotenc_id state last
    i key enc name enc' evs_enc :
  options settings !! "rotenc_id" = Some rotenc_id ->
  gpio_input env h pin = Ok state ->
  last_states s !! pin = Some last ->
  state <> last ->
  dict_index rotenc_id (rot_encoders s) = Some (i, (key, enc)) ->
  get_event env (h ++ [EvInput pin]) enc = (Ok (Some name), enc', evs_enc) ->
  name <> "" ->
  getattr_handler (S := Frontend RotEncoder) ("handle_" +:+ name) = None ->
  poll_line pins get_event (pin, settings) env h s
    = (Raise (missing_handler name),
       set_rot_encoders (fun d => <[i := (key, enc')]> d) s,
       EvInput pin :: evs_enc
         ++ [EvLog (LogRotary pin name); EvDispatch name (options settings)]).
Proof.
  intros Hopt Hread Hlast Hne Hkey Hget Hname Hnone. unfold poll_line.
  rewrite (bind_one _ _ env h s state s (EvInput pin))
    by (unfold GPIO_input, external; rewrite Hread; reflexivity).
  rewrite (bind_silent _ _ env _ s last s)
    by (unfold last_states_get; rewrite Hlast; reflexivity).
  rewrite Hopt. unfold poll_rotary. rewrite decide_True by exact Hne.
  assert (Hi : rot_encoders s !! i = Some (key, enc)).
  { unfold dict_index in Hkey. apply list_find_Some in Hkey. tauto. }
  set (s1 := set_rot_encoders (fun d => <[i := (key, enc')]> d) s).
  set (log := EvLog (LogRotary pin name)).
  assert (Hbody :
    (i0 <- getitem_ref rot_encoders rotenc_id ;;
     event1 <- encoder_get_event get_event i0 ;;
     match truthy event1 with
     | Some name0 =>
         logger_info (LogRotary pin name0) ;; dispatch_input name0 (options settings)
     | None => ret tt
     end) env (h ++ [EvInput pin]) s
    = (Raise (missing_handler name), s1,
       evs_enc ++ [log; EvDispatch name (options settings)])).
  { rewrite (bind_silent _ _ env _ s i s)
      by (unfold getitem_ref; rewrite Hkey; reflexivity).
    rewrite (bind_Ok _ _ env _ s (Some name) s1 evs_enc)
      by (unfold encoder_get_event; rewrite Hi, Hget; reflexivity).
    unfold truthy. rewrite decide_False by exact Hname.
    rewrite (bind_one _ _ env _ s1 tt s1 log) by reflexivity.
    rewrite (dispatch_input_unmapped name (options settings) env _ s1 Hnone).
    reflexivity. }
  rewrite (bind_Raise _ _ env _ s _ _ _ Hbody). reflexivity.
Qed.

(** C1 (as the code has it): for an event name without a handler,
    dispatch_input raises the RuntimeError "Could not find input handler for
    event: <name>" and does nothing else; the sampling loop does not catch
    it.  Whatever exception the processing of a line raises leaves
    _poll_loop at that point, with the lines sampled so far and nothing
    after; so on the activating edge of a button line with such an event
    name the loop ends with that RuntimeError right after the call, without
    the debounce wait, without storing the new level, and without sampling
    the remaining lines or starting another pass; and so it does when the
    encoder of a rotary line whose level changed yields such a name. *)
Theorem unmapped_event_ends_the_loop env h0 s0 pre pin settings post s evs_pre fuel :
  stop_is_set env h0 = false ->
  pin_settings s0 = pre ++ (pin, settings) :: post ->
  for_each pre (poll_line pins get_event) env (h0 ++ [EvIsSet]) s0 = (Ok tt, s, evs_pre) ->
  (forall opts h (st : Frontend RotEncoder),
     getattr_handler (S := Frontend RotEncoder) ("handle_" +:+ event settings) = None ->
     dispatch_input (event settings) opts env h st
       = (Raise (missing_handler (event settings)), st, [EvDispatch (event settings) opts]))
  /\ (forall e s1 evs1,
        poll_line pins get_event (pin, settings) env ((h0 ++ [EvIsSet]) ++ evs_pre) s
          = (Raise e, s1, evs1) ->
        _poll_loop pins get_event (S fuel) env h0 s0
          = (Raise e, s1, EvIsSet :: evs_pre ++ evs1))
  /\ (forall state last,
        getattr_handler (S := Frontend RotEncoder) ("handle_" +:+ event settings) = None ->
        options settings !! "rotenc_id" = None ->
        bound_line s pin settings ->
        in_no_encoder pins s pin ->
        event settings <> "" ->
        gpio_input env ((h0 ++ [EvIsSet]) ++ evs_pre) pin = Ok state ->
        last_states s !! pin = Some last ->
        activating_edge settings state last = true ->
        _poll_loop pins get_event (S fuel) env h0 s0
          = (Raise (missing_handler (event settings)), s,
             EvIsSet :: evs_pre
               ++ [EvInput pin; EvLog (LogGpio pin (event settings) (options settings));
                   EvDispatch (event settings) (options settings)]))
  /\ (forall rotenc_id state last i key enc name enc' evs_enc,
        getattr_handler (S := Frontend RotEncoder) ("handle_" +:+ name) = None ->
        options settings !! "rotenc_id" = Some rotenc_id ->
        gpio_input env ((h0 ++ [EvIsSet]) ++ evs_pre) pin = Ok state ->
        last_states s !! pin = Some last ->
        state <> last ->
        dict_index rotenc_id (rot_encoders s) = Some (i, (key, enc)) ->
        get_event env (((h0 ++ [EvIsSet]) ++ evs_pre) ++ [EvInput pin]) enc
          = (Ok (Some name), enc', evs_enc) ->
        name <> "" ->
        _poll_loop pins get_event (S fuel) env h0 s0
          = (Raise (missing_handler name),
             set_rot_encoders (fun d => <[i := (key, enc')]> d) s,
             EvIsSet :: evs_pre
               ++ EvInput pin :: evs_enc
               ++ [EvLog (LogRotary pin name); EvDispatch name (options settings)])).
Proof.
  intros Hstop Hlines Hpre.
  assert (Hloop : forall e s1 evs1,
    poll_line pins get_event (pin, settings) env ((h0 ++ [EvIsSet]) ++ evs_pre) s
      = (Raise e, s1, evs1) ->
    _poll_loop pins get_event (S fuel) env h0 s0
      = (Raise e, s1, EvIsSet :: evs_pre ++ evs1)).
  { intros e s1 evs1 Hline. apply poll_loop_raise; [exact Hstop|].
    eapply poll_pass_raise; eauto. }
  split; [|split; [|split]].
  - intros opts h st Hnone. apply dispatch_input_unmapped. exact Hnone.
  - exact Hloop.
  - intros state last Hnone Hopt Hbound Henc Hev Hread Hlast Hedge.
    apply Hloop.
    rewrite (poll_line_button pins get_event env _ s pin settings state last Hopt Hread Hlast).
    rewrite (poll_button_edge pins get_event env _ s pin settings state last
               Hedge Hbound Henc Hev).
    cbv zeta. rewrite (dispatch_input_unmapped _ _ env _ s Hnone). reflexivity.
  - intros rotenc_id state last i key enc name enc' evs_enc
      Hnone Hopt Hread Hlast Hne Hkey Hget Hname.
    apply Hloop.
    apply (poll_line_rotary_unmapped env _ s pin settings rotenc_id state last
             i key enc name enc' evs_enc); assumption.
Qed.

(** C2 (as the code has it): when [GPIO.input] of a line raises, the
    iteration ends at that read: the stored levels (that of the line among
    them) and the rest of the object are unchanged, nothing is logged, and
    the exception leaves _poll_loop: the remaining lines are not sampled and
    no further pass starts. *)
Theorem failed_read_ends_the_loop env h0 s0 pre pin settings post s evs_pre fuel e :
  stop_is_set env h0 = false ->
  pin_settings s0 = pre ++ (pin, settings) :: post ->
  for_each pre (poll_line pins get_event) env (h0 ++ [EvIsSet]) s0 = (Ok tt, s, evs_pre) ->
  gpio_input env ((h0 ++ [EvIsSet]) ++ evs_pre) pin = Raise e ->
  poll_line pins get_event (pin, settings) env ((h0 ++ [EvIsSet]) ++ evs_pre) s
    = (Raise e, s, [EvInput pin])
  /\ _poll_loop pins get_event (S fuel) env h0 s0
     = (Raise e, s, EvIsSet :: evs_pre ++ [EvInput pin]).
Proof.
  intros Hstop Hlines Hpre Hread.
  pose proof (poll_line_read_fails env _ s pin settings e Hread) as Hline.
  split; [exact Hline|].
  apply poll_loop_raise; [exact Hstop|].
  eapply poll_pass_raise; eauto.
Qed.
End Exceptions.

(** ** Stopping *)

Section Stopping.
Context {RotEncoder : Type}.
Variable pins : RotEncoder -> list Z.
Variable get_event : M RotEncoder (option string).

Implicit Types (s : Frontend RotEncoder).

Lemma poll_loop_stop env h s fuel :
  stop_is_set env h = true ->
  _poll_loop pins get_event (S fuel) env h s = (Ok (Some tt), s, [EvIsSet]).
Proof.
  intros Hstop. cbn [_poll_loop].
  rewrite (bind_one _ _ env h s true s EvIsSet)
    by (unfold is_set, external; rewrite Hstop; reflexivity).
  reflexivity.
Qed.

Lemma poll_loop_pass env h s fuel s1 evs :
  stop_is_set env h = false ->
  poll_pass pins get_event env (h ++ [EvIsSet]) s = (Ok tt, s1, evs) ->
  _poll_loop pins get_event (S fuel) env h s =
    (let '(r, s2, evs2) :=
       _poll_loop pins get_event fuel env
         (h ++ EvIsSet :: evs ++ [EvSleep poll_interval]) s1 in
     (r, s2, EvIsSet :: evs ++ EvSleep poll_interval :: evs2)).
Proof.
  intros Hstop Hpass. cbn [_poll_loop].
  rewrite (bind_one _ _ env h s false s EvIsSet)
    by (unfold is_set, external; rewrite Hstop; reflexivity).
  rewrite (bind_Ok _ _ env _ s tt s1 evs Hpass).
  rewrite (bind_one _ _ env _ s1 tt s1 (EvSleep poll_interval)) by reflexivity.
  rewrite <- !app_assoc. cbn [app].
  destruct (_poll_loop pins get_event fuel env _ s1) as [[r s2] evs2].
  reflexivity.
Qed.

Lemma on_stop_run env h s :
  polling_thread s = true ->
  on_stop env h s = (Ok tt, s, [EvStopSet; EvJoin 1; EvCleanup]).
Proof.
  intros Hthread. unfold on_stop, bind, emit, gets. rewrite Hthread. reflexivity.
Qed.

(** Once the flag is set from the [n]-th event of the loop's history on,
    the loop ends: every head of a pass reads the flag and every pass adds
    events, so [n + 1] passes (fewer when the history is longer) are
    enough to see it return or raise. *)
Lemma poll_loop_ends n env :
  (forall h, (n <= length h)%nat -> stop_is_set env h = true) ->
  forall fuel h s,
    (n < S fuel + length h)%nat ->
    (_poll_loop pins get_event (S fuel) env h s).1.1 <> Ok None.
Proof.
  intros Hset fuel. induction fuel as [|fuel IH]; intros h s Hfuel.
  - rewrite (poll_loop_stop env h s 0) by (apply Hset; lia). discriminate.
  - destruct (stop_is_set env h) eqn:Hstop.
    + rewrite (poll_loop_stop env h s (S fuel) Hstop). discriminate.
    + destruct (poll_pass pins get_event env (h ++ [EvIsSet]) s)
        as [[[[]|e] s1] evs] eqn:Hpass.
      * rewrite (poll_loop_pass env h s (S fuel) s1 evs Hstop Hpass).
        specialize (IH (h ++ EvIsSet :: evs ++ [EvSleep poll_interval]) s1).
        destruct (_poll_loop pins get_event (S fuel) env _ s1) as [[r s2] evs2].
        apply IH. rewrite length_app. simpl. lia.
      * rewrite (poll_loop_raise pins get_event env h s (S fuel) e s1 evs Hstop Hpass).
        discriminate.
Qed.

(** C8: the flag is read once at the head of each pass.  If it is set
    there, _poll_loop returns without sampling a line.  If it becomes set
    at any point of a pass (and stays set), the loop runs that pass to its
    end and returns at the next read of the flag, or ends earlier with the
    exception of that pass: no further pass starts.  Wherever in the
    loop's history the flag becomes set, the loop ends.  on_stop, once
    on_start has bound the thread, sets the flag, joins with a timeout of
    one second and then calls GPIO.cleanup() once, also when the thread
    is still alive after the join. *)
Theorem stop_ends_the_loop_and_releases env h s fuel :
  (stop_is_set env h = true ->
   _poll_loop pins get_event (S fuel) env h s = (Ok (Some tt), s, [EvIsSet]))
  /\ (forall r1 s1 evs mid rest,
        stop_is_set env h = false ->
        poll_pass pins get_event env (h ++ [EvIsSet]) s = (r1, s1, evs) ->
        EvIsSet :: evs ++ [EvSleep poll_interval] = mid ++ rest ->
        (forall h', stop_is_set env (h ++ mid ++ h') = true) ->
        _poll_loop pins get_event (S (S fuel)) env h s =
          match r1 with
          | Ok _ => (Ok (Some tt), s1, EvIsSet :: evs ++ [EvSleep poll_interval; EvIsSet])
          | Raise e => (Raise e, s1, EvIsSet :: evs)
          end)
  /\ (forall n,
        (forall h', (n <= length h')%nat -> stop_is_set env h' = true) ->
        (n < S fuel + length h)%nat ->
        (_poll_loop pins get_event (S fuel) env h s).1.1 <> Ok None)
  /\ (forall env' h' s' r s'' evs,
        on_start (RotEncoder := RotEncoder) env h s = (Ok tt, s', [EvThreadStart]) ->
        on_stop env' h' s' = (r, s'', evs) ->
        r = Ok tt /\ s'' = s' /\ evs = [EvStopSet; EvJoin 1; EvCleanup]
        /\ cleanups evs = 1%nat)
  /\ (forall env' h' s',
        polling_thread s' = true ->
        thread_alive env' (h' ++ [EvStopSet; EvJoin 1]) = true ->
        on_stop env' h' s' = (Ok tt, s', [EvStopSet; EvJoin 1; EvCleanup])).
Proof.
  split; [|split; [|split; [|split]]].
  - apply poll_loop_stop.
  - intros r1 s1 evs mid rest Hstop Hpass Hmid Hset.
    destruct r1 as [[]|e].
    + rewrite (poll_loop_pass env h s (S fuel) s1 evs Hstop Hpass).
      assert (Hnow : stop_is_set env (h ++ EvIsSet :: evs ++ [EvSleep poll_interval]) = true).
      { rewrite Hmid. apply Hset. }
      rewrite (poll_loop_stop env _ s1 fuel Hnow). reflexivity.
    + apply poll_loop_raise; assumption.
  - intros n Hset Hfuel. apply (poll_loop_ends n env Hset fuel h s Hfuel).
  - intros env' h' s' r s'' evs Hstart.
    rewrite on_stop_run.
    + intros [= <- <- <-]. repeat split.
    + unfold on_start, bind, modify, emit in Hstart. simpl in Hstart.
      injection Hstart as <-. reflexivity.
  - intros env' h' s' Hthread _. apply on_stop_run. exact Hthread.
Qed.
End Stopping.

(** ** The quadrature decoder *)

Example gray_cycle : Quadrature.gray <$> [0; 1; 2; 3; 4 mod 4] = [0; 1; 3; 2; 0].
Proof. reflexivity. Qed.


(** ** The properties on the small installation *)

Section OnTheInstallation.
Import RotEncoderModel Examples.

(** Facts about the installation hold by evaluation. *)
Ltac evaluated :=
  first [ reflexivity | discriminate | lia | apply triple_eta
        | vm_compute; reflexivity | exists 0%nat; vm_compute; reflexivity ].

Lemma model_get_event_no_sleep : emits (fun ev => ~ is_sleep ev) get_event.
Proof.
  unfold get_event.
  apply emits_bind; [apply emits_gets|intros enc].
  destruct (pins enc) as [|pin_a [|pin_b [|pin_c l]]]; try apply emits_ret.
  apply emits_bind; [apply emits_external; intros []|intros a].
  apply emits_bind; [apply emits_external; intros []|intros b].
  destruct (Quadrature.sample (decoder enc) a b) as [dirs d'].
  apply emits_bind; [apply emits_modify|intros _]. apply emits_ret.
Qed.

Lemma volume_handlers_clamp_witness :
  handle_volume_up ∅ (env_of pressed 98 None) [] tt
    = (Ok tt, tt, [EvCore GetVolume; EvCore (SetVolume 100)])
  /\ handle_volume_down step5_options (env_of pressed 3 None) [] tt
    = (Ok tt, tt, [EvCore GetVolume; EvCore (SetVolume 0)])
  /\ handle_volume_up step7_options (env_of pressed 50 None) [] tt
    = (Ok tt, tt, [EvCore GetVolume; EvCore (SetVolume 57)])
  /\ handle_volume_down step7_options (env_of pressed 50 None) [] tt
    = (Ok tt, tt, [EvCore GetVolume; EvCore (SetVolume 43)]).
Proof.
  split; [|split; [|split]].
  - apply (volume_handlers_clamp ∅ (env_of pressed 98 None) [] tt 5 98);
      [reflexivity | reflexivity | lia].
  - apply (volume_handlers_clamp step5_options (env_of pressed 3 None) [] tt 5 3);
      [vm_compute; reflexivity | reflexivity | lia].
  - apply (volume_handlers_clamp step7_options (env_of pressed 50 None) [] tt 7 50);
      [vm_compute; reflexivity | reflexivity | lia].
  - apply (volume_handlers_clamp step7_options (env_of pressed 50 None) [] tt 7 50);
      [vm_compute; reflexivity | reflexivity | lia].
Defined.

(** C4, as the spec states it, fails: with the step "-200" configured,
    handle_volume_up from the volume 50 calls set_volume(-150), which is
    not in [0, 100]. *)
Lemma volume_range_counterexample :
  handle_volume_up negative_step_options (env_of pressed 50 None) [] tt
    = (Ok tt, tt, [EvCore GetVolume; EvCore (SetVolume (-150))])
  /\ ~ (0 <= -150 <= 100).
Proof. split; [vm_compute; reflexivity | lia]. Qed.

Lemma playlist_replaces_tracklist_witness :
  dispatch_input "playlist" party_options (env_of pressed 98 None) [] tt
    = (Ok tt, tt,
       [EvDispatch "playlist" party_options; EvCore (Lookup (Some party_uri));
        EvCore TracklistClear;
        EvCore (TracklistAdd ["local:track:a.mp3"; "local:track:b.mp3"]); EvCore Play]).
Proof.
  apply (playlist_replaces_tracklist party_options (env_of pressed 98 None) []
           tt party_uri party); [vm_compute; reflexivity | reflexivity].
Defined.

Lemma dispatch_input_converts_AttributeError_witness :
  dispatch_input "playlist" gone_options (env_of pressed 98 None) [] tt
    = (Raise (RuntimeError "Could not find input handler for event: playlist"), tt,
       [EvDispatch "playlist" gone_options;
        EvCore (Lookup (gone_options !! "uri")); EvCore TracklistClear]).
Proof.
  apply (dispatch_input_converts_AttributeError "playlist" gone_options
           (env_of pressed 98 None) [] tt); [reflexivity | vm_compute; reflexivity].
Defined.


Lemma button_dispatches_on_activating_edge_witness :
  dispatched
    (poll_line pins get_event (17, button17 "next") (env_of pressed 98 None) []
       (frontend "next")).2 = [("next", ∅)]
  /\ (poll_line pins get_event (17, button17 "next") (env_of pressed 98 None) []
        (frontend "next")).1.2 = frontend_held
  /\ dispatched
       (poll_line pins get_event (17, button17 "next") (env_of pressed 98 None) []
          frontend_held).2 = []
  /\ dispatched
       (poll_line pins get_event (17, button17 "next") (env_of released 98 None) []
          frontend_held).2 = [].
Proof.
  pose (run := poll_line pins get_event (17, button17 "next") (env_of pressed 98 None) []
                 (frontend "next")).
  pose (again := poll_line pins get_event (17, button17 "next") (env_of pressed 98 None) []
                   run.1.2).
  pose (up := poll_line pins get_event (17, button17 "next") (env_of released 98 None) []
                frontend_held).
  destruct (button_dispatches_on_activating_edge pins get_event (env_of pressed 98 None) []
              (frontend "next") 17 (button17 "next") LOW HIGH LOW run.1.1 run.1.2 run.2)
    as (Hfirst & Hstore & Hnext); [evaluated ..|].
  split; [exact Hfirst|]. split; [vm_compute; reflexivity|].
  split.
  - apply (proj2 (Hnext (env_of pressed 98 None) [] LOW again.1.1 again.1.2 again.2
                    ltac:(vm_compute; reflexivity) eq_refl (triple_eta _)) eq_refl).
  - apply (proj1 (button_dispatches_on_activating_edge pins get_event
                    (env_of released 98 None) [] frontend_held 17 (button17 "next")
                    HIGH LOW LOW up.1.1 up.1.2 up.2
                    eq_refl ltac:(exists 0%nat; vm_compute; reflexivity) eq_refl
                    ltac:(discriminate) eq_refl ltac:(vm_compute; reflexivity) eq_refl
                    (triple_eta _))).
Defined.

Lemma rotary_lines_are_not_debounced_witness :
  Forall (fun ev => ~ is_sleep ev)
    (poll_line pins get_event (5, rotary "volume_up") (env_of pressed 98 None) []
       (frontend "next")).2.
Proof.
  apply Forall_forall. intros ev Hin.
  apply (proj1 (rotary_lines_are_not_debounced pins get_event model_get_event_no_sleep
                  (env_of pressed 98 None) [] (frontend "next"))
           5 (rotary "volume_up") _ _ _
           (ex_intro _ (VStr "vol") eq_refl) (triple_eta _) ev Hin).
Defined.

Lemma debounce_blocks_the_pass_witness :
  (poll_pass pins get_event (env_of pressed 98 None) [] (frontend "next")).2
  = [EvInput 17; EvLog (LogGpio 17 "next" ∅); EvDispatch "next" ∅; EvCore Next;
     EvSleep (200 # 1000)]
    ++ (for_each [(5, rotary "volume_up"); (6, rotary "volume_down"); (27, button27)]
          (poll_line pins get_event) (env_of pressed 98 None)
          [EvInput 17; EvLog (LogGpio 17 "next" ∅); EvDispatch "next" ∅; EvCore Next;
           EvSleep (200 # 1000)]
          (set_last_states (fun m => <[17 := LOW]> m) (frontend "next"))).2.
Proof.
  destruct (debounce_blocks_the_pass pins get_event (env_of pressed 98 None) []
              (frontend "next") [] 17 (button17 "next")
              [(5, rotary "volume_up"); (6, rotary "volume_down"); (27, button27)]
              (frontend "next") [] LOW HIGH [EvDispatch "next" ∅; EvCore Next])
    as (_ & _ & Hpass); [evaluated .. |].
  rewrite Hpass. vm_compute. reflexivity.
Defined.

Lemma unmapped_event_ends_the_loop_witness :
  _poll_loop pins get_event 3 (env_of pressed 98 None) [] (frontend "bogus")
  = (Raise (RuntimeError "Could not find input handler for event: bogus"),
     frontend "bogus",
     [EvIsSet; EvInput 17; EvLog (LogGpio 17 "bogus" ∅); EvDispatch "bogus" ∅]).
Proof.
  apply (proj1 (proj2 (proj2 (unmapped_event_ends_the_loop pins get_event
                                (env_of pressed 98 None) [] (frontend "bogus") [] 17
                                (button17 "bogus")
                                [(5, rotary "volume_up"); (6, rotary "volume_down");
                                 (27, button27)]
                                (frontend "bogus") [] 2 eq_refl eq_refl eq_refl)))
           LOW HIGH); evaluated.
Defined.

(** C1, as the spec states it, fails: with bcm17 bound to the event "bogus",
    for which the class has no handler, the first press ends _poll_loop with
    the RuntimeError although the stop flag is never set and fuel for more
    passes is left; the lines after bcm17 are not sampled and no second pass
    starts. *)
Lemma unmapped_event_counterexample :
  getattr_handler (S := Frontend RotEncoder) "handle_bogus" = None
  /\ _poll_loop pins get_event 5 (env_of pressed 98 None) [] (frontend "bogus")
     = (Raise (RuntimeError "Could not find input handler for event: bogus"),
        frontend "bogus",
        [EvIsSet; EvInput 17; EvLog (LogGpio 17 "bogus" ∅); EvDispatch "bogus" ∅]).
Proof. split; vm_compute; reflexivity. Qed.

Lemma failed_read_ends_the_loop_witness :
  _poll_loop pins get_event 4 (env_of broken 98 None) [] frontend_rotary_first
  = (Raise (RuntimeError "You must setup() the GPIO channel first"),
     frontend_rotary_first,
     [EvIsSet; EvInput 5; EvInput 6; EvInput 17]).
Proof.
  apply (proj2 (failed_read_ends_the_loop pins get_event (env_of broken 98 None) []
                  frontend_rotary_first
                  [(5, rotary "volume_up"); (6, rotary "volume_down")] 17 (button17 "next")
                  [(27, button27)] frontend_rotary_first [EvInput 5; EvInput 6] 3
                  (RuntimeError "You must setup() the GPIO channel first")
                  eq_refl eq_refl ltac:(vm_compute; reflexivity) eq_refl)).
Defined.

(** C2, as the spec states it, fails: when the read of bcm17 raises, the
    exception ends _poll_loop; bcm5, bcm6 and bcm27 are not sampled, no
    later pass starts, and nothing is logged. *)
Lemma failed_read_counterexample :
  _poll_loop pins get_event 5 (env_of broken 98 None) [] (frontend "next")
  = (Raise (RuntimeError "You must setup() the GPIO channel first"),
     frontend "next", [EvIsSet; EvInput 17]).
Proof. vm_compute. reflexivity. Qed.

Lemma stop_ends_the_loop_and_releases_witness :
  (_poll_loop pins get_event 7 (env_of pressed 98 (Some 2%nat)) [] (frontend "next")).1.1
    = Ok (Some tt)
  /\ (on_stop (env_of released 98 None) [EvThreadStart]
        (set_polling_thread true (frontend "next"))).2
     = [EvStopSet; EvJoin 1; EvCleanup]
  /\ cleanups
       (on_stop (env_of released 98 None) [EvThreadStart]
          (set_polling_thread true (frontend "next"))).2 = 1%nat.
Proof.
  set (env := env_of pressed 98 (Some 2%nat)).
  pose (pass := poll_pass pins get_event env [EvIsSet] (frontend "next")).
  destruct (stop_ends_the_loop_and_releases pins get_event env [] (frontend "next") 5)
    as (_ & Hloop & _ & Hstop & _).
  split.
  - rewrite (Hloop (Ok tt) pass.1.2 pass.2 [EvIsSet; EvInput 17]
               (tail pass.2 ++ [EvSleep poll_interval])).
    + reflexivity.
    + evaluated.
    + evaluated.
    + evaluated.
    + intros h'. reflexivity.
  - exact (proj2 (proj2 (Hstop (env_of released 98 None) [EvThreadStart]
                    (set_polling_thread true (frontend "next")) _ _ _
                    eq_refl (triple_eta _)))).
Defined.

End OnTheInstallation.

(** * Further properties *)

(** ** Failure modes of the handlers *)

(** X2: in every environment and for every options mapping, a volume
    handler calls set_volume at most once, handle_volume_up with a value
    of at most 100 and handle_volume_down with a value of at least 0; when
    it raises (unreadable step, failed or unknown volume) it has set
    nothing. *)
Theorem volume_handlers_bounded {S} (config : Options) env h (s : S) :
  (forall r s' evs,
     handle_volume_up config env h s = (r, s', evs) ->
     s' = s
     /\ match r with
        | Ok _ => exists v, volumes_set evs = [v] /\ v <= 100
        | Raise _ => volumes_set evs = []
        end)
  /\ (forall r s' evs,
        handle_volume_down config env h s = (r, s', evs) ->
        s' = s
        /\ match r with
           | Ok _ => exists v, volumes_set evs = [v] /\ 0 <= v
           | Raise _ => volumes_set evs = []
           end).
Proof.
  split; intros r s' evs;
    unfold handle_volume_up, handle_volume_down, bind; rewrite config_step_run;
    unfold get_volume, external, as_number, core_call, emit, ret, raise;
    destruct (configured_step env config) as [step|e]; try (intros [= <- <- <-]; auto);
    destruct (mixer_get_volume env (h ++ [])) as [[v|]|e];
    intros [= <- <- <-]; split; try reflexivity; eexists; split; try reflexivity; lia.
Qed.

(** X3: handle_playlist empties the queue before it looks at what the
    lookup returned.  When the lookup raises, its exception passes and the
    queue is as before.  When it returns None, the handler raises
    AttributeError with the queue already emptied.  When it returns a
    playlist, the handler returns and the queue is the playlist's tracks.
    playback.play() is called exactly when the handler returns, and a
    handler that raises has added nothing to the queue. *)
Theorem playlist_failure_modes {S} (config : Options) env h (s : S) r s' evs :
  handle_playlist config env h s = (r, s', evs) ->
  s' = s
  /\ r = match playlists_lookup env h (config !! "uri") with
         | Raise e => Raise e
         | Ok None => Raise AttributeError
         | Ok (Some _) => Ok tt
         end
  /\ (EvCore Play ∈ evs <-> r = Ok tt)
  /\ (r <> Ok tt -> forall ts, EvCore (TracklistAdd ts) ∉ evs)
  /\ forall prior,
       tracklist_after evs prior =
         match playlists_lookup env h (config !! "uri") with
         | Raise _ => prior
         | Ok None => []
         | Ok (Some p) => tracks p
         end.
Proof.
  unfold handle_playlist, bind, lookup_playlist, external, core_call, emit, ret, raise.
  destruct (playlists_lookup env h (config !! "uri")) as [[p|]|e];
    intros [= <- <- <-];
    (split; [reflexivity|]); (split; [reflexivity|]);
    (split; [|split; [|reflexivity]]).
  - split; [reflexivity|]. intros _. set_solver.
  - intros Hr. congruence.
  - split; [|discriminate]. intros Hin.
    repeat (apply elem_of_cons in Hin as [Hin|Hin]; [discriminate|]).
    apply elem_of_nil in Hin. contradiction.
  - intros _ ts Hin.
    repeat (apply elem_of_cons in Hin as [Hin|Hin]; [discriminate|]).
    apply elem_of_nil in Hin. contradiction.
  - split; [|discriminate]. intros Hin.
    repeat (apply elem_of_cons in Hin as [Hin|Hin]; [discriminate|]).
    apply elem_of_nil in Hin. contradiction.
  - intros _ ts Hin.
    repeat (apply elem_of_cons in Hin as [Hin|Hin]; [discriminate|]).
    apply elem_of_nil in Hin. contradiction.
Qed.

(** ** Stopping before starting *)

(** X4: on_stop on an object on which on_start has not run sets the stop
    flag and then raises AttributeError at [self._polling_thread]: nothing
    is joined and GPIO.cleanup() is not called. *)
Theorem on_stop_before_on_start {RotEncoder} env h (s : Frontend RotEncoder) :
  polling_thread s = false ->
  on_stop env h s = (Raise AttributeError, s, [EvStopSet])
  /\ cleanups (on_stop env h s).2 = 0%nat.
Proof.
  intros Hthread. unfold on_stop, bind, emit, gets, raise. rewrite Hthread.
  split; reflexivity.
Qed.

(** ** What a computation keeps *)

Section Keeps.
Context {S : Type} (R : S -> S -> Prop) `{!Reflexive R} `{!Transitive R}.

Lemma keeps_ret {A} (a : A) : keeps R (ret a).
Proof. intros env h s r s' evs [= <- <- <-]. reflexivity. Qed.

Lemma keeps_raise {A} e : keeps (A := A) R (raise e).
Proof. intros env h s r s' evs [= <- <- <-]. reflexivity. Qed.

Lemma keeps_gets {A} (f : S -> A) : keeps R (gets f).
Proof. intros env h s r s' evs [= <- <- <-]. reflexivity. Qed.

Lemma keeps_emit ev : keeps R (emit ev).
Proof. intros env h s r s' evs [= <- <- <-]. reflexivity. Qed.

Lemma keeps_external {A} ev (answer : Env -> History -> Result A) :
  keeps R (external ev answer).
Proof. intros env h s r s' evs [= <- <- <-]. reflexivity. Qed.

Lemma keeps_modify (f : S -> S) : (forall s, R s (f s)) -> keeps R (modify f).
Proof. intros Hf env h s r s' evs [= <- <- <-]. apply Hf. Qed.

Lemma keeps_bind {A B} (m : M S A) (f : A -> M S B) :
  keeps R m -> (forall a, keeps R (f a)) -> keeps R (bind m f).
Proof.
  intros Hm Hf env h s r s' evs. unfold bind.
  destruct (m env h s) as [[[a|e] s1] ev1] eqn:Em.
  - destruct (f a env (h ++ ev1) s1) as [[r2 s2] ev2] eqn:Ef.
    intros [= <- <- <-]. etransitivity; [eapply Hm|eapply Hf]; eauto.
  - intros [= <- <- <-]. eapply Hm; eauto.
Qed.

Lemma keeps_for_each {A} (l : list A) (body : A -> M S unit) :
  (forall x, x ∈ l -> keeps R (body x)) -> keeps R (for_each l body).
Proof.
  induction l as [|x l IH]; intros Hbody; simpl.
  - apply keeps_ret.
  - apply keeps_bind; [apply Hbody; left|intros _].
    apply IH. intros y Hy. apply Hbody. right. exact Hy.
Qed.

Lemma keeps_time_sleep secs : keeps R (time_sleep secs).
Proof.
  intros env h s r s' evs Hrun.
  destruct (time_sleep_cases secs env h s) as [Hok|[e He]].
  - rewrite Hok in Hrun. injection Hrun as <- <- <-. reflexivity.
  - rewrite He in Hrun. injection Hrun as <- <- <-. reflexivity.
Qed.


Lemma keeps_dispatch_input event opts : keeps R (dispatch_input event opts).
Proof.
  intros env h s r s' evs Hrun.
  apply dispatch_input_effects in Hrun as [-> _]. reflexivity.
Qed.
End Keeps.

(** Apply a lemma on [keeps], finding the preorder facts by instance
    search. *)
Tactic Notation "keep" uconstr(lem) := apply lem; try exact _.

Lemma keeps_debounce_wait {RotEncoder} (R : Frontend RotEncoder -> Frontend RotEncoder -> Prop)
    `{!Reflexive R} settings :
  keeps R (debounce_wait settings).
Proof.
  intros env h s r s' evs. rewrite debounce_wait_run.
  destruct (debounce_slept env settings); intros [= <- <- <-]; reflexivity.
Qed.

Section KeepsFrontend.
Context {RotEncoder : Type}.
Variable pins : RotEncoder -> list Z.
Variable get_event : M RotEncoder (option string).
Variable R : Frontend RotEncoder -> Frontend RotEncoder -> Prop.
Context `{!Reflexive R} `{!Transitive R}.

(** [R] allows the change of an encoder object in its place. *)
Hypothesis R_encoder : forall s i key enc enc',
  rot_encoders s !! i = Some (key, enc) ->
  R s (set_rot_encoders (fun d => <[i := (key, enc')]> d) s).

Lemma keeps_getitem {K V} `{EqDecision K}
    (field : Frontend RotEncoder -> list (K * V)) (key : K) :
  keeps R (getitem field key).
Proof.
  intros env h s r s' evs. unfold getitem.
  destruct (dict_index key (field s)) as [[i [k v]]|]; intros [= <- <- <-]; reflexivity.
Qed.

Lemma keeps_getitem_ref {K V} `{EqDecision K}
    (field : Frontend RotEncoder -> list (K * V)) (key : K) :
  keeps R (getitem_ref field key).
Proof.
  intros env h s r s' evs. unfold getitem_ref.
  destruct (dict_index key (field s)) as [[i kv]|]; intros [= <- <- <-]; reflexivity.
Qed.

Lemma keeps_last_states_get pin : keeps R (last_states_get pin).
Proof.
  intros env h s r s' evs. unfold last_states_get.
  destruct (last_states s !! pin); intros [= <- <- <-]; reflexivity.
Qed.

Lemma keeps_encoder_get_event i : keeps R (encoder_get_event get_event i).
Proof.
  intros env h s r s' evs. unfold encoder_get_event.
  destruct (rot_encoders s !! i) as [[key encoder]|] eqn:Hi;
    [|intros [= <- <- <-]; reflexivity].
  destruct (get_event env h encoder) as [[r0 e'] evs0].
  intros [= <- <- <-]. eapply R_encoder; eauto.
Qed.

Lemma keeps_gpio_event pin : keeps R (gpio_event pins get_event pin).
Proof.
  unfold gpio_event.
  keep keeps_bind; [keep keeps_getitem|intros settings].
  keep keeps_bind; [keep keeps_gets |intros encoder].
  keep keeps_bind; [|].
  { destruct encoder; [keep keeps_encoder_get_event|keep keeps_ret ]. }
  intros event1. destruct (truthy event1); [|keep keeps_ret ].
  keep keeps_bind; [keep keeps_emit |intros _].
  keep keeps_dispatch_input .
Qed.

(** The rotary branch up to the store of the level. *)
Lemma keeps_rotary_change pin settings rotenc_id :
  keeps R (i <- getitem_ref rot_encoders rotenc_id ;;
           event1 <- encoder_get_event get_event i ;;
           match truthy event1 with
           | Some name =>
               logger_info (LogRotary pin name) ;;
               dispatch_input name (options settings)
           | None => ret tt
           end).
Proof.
  keep keeps_bind; [keep keeps_getitem_ref|intros i].
  keep keeps_bind; [keep keeps_encoder_get_event|intros event1].
  destruct (truthy event1); [|keep keeps_ret ].
  keep keeps_bind; [keep keeps_emit |intros _].
  keep keeps_dispatch_input .
Qed.

(** [R] allows the store of a level. *)
Hypothesis R_level : forall s pin state,
  R s (set_last_states (fun m => <[pin := state]> m) s).

Lemma keeps_poll_line line : keeps R (poll_line pins get_event line).
Proof.
  destruct line as [pin settings]. unfold poll_line.
  keep keeps_bind; [keep keeps_external |intros state].
  keep keeps_bind; [keep keeps_last_states_get|intros last].
  destruct (options settings !! "rotenc_id") as [rotenc_id|].
  - unfold poll_rotary.
    keep keeps_bind; [|intros _; keep keeps_modify; intros s; apply R_level].
    destruct (decide (state <> last)); [keep keeps_rotary_change|keep keeps_ret ].
  - unfold poll_button.
    keep keeps_bind; [|intros _; keep keeps_modify; intros s; apply R_level].
    destruct (activating_edge settings state last); [|keep keeps_ret ].
    keep keeps_bind; [keep keeps_gpio_event|intros _].
    keep keeps_debounce_wait.
Qed.

Lemma keeps_poll_pass : keeps R (poll_pass pins get_event).
Proof.
  unfold poll_pass.
  keep keeps_bind; [keep keeps_gets |intros lines].
  keep keeps_for_each. intros line _. keep keeps_poll_line.
Qed.

Lemma keeps_poll_loop fuel : keeps R (_poll_loop pins get_event fuel).
Proof.
  induction fuel as [|fuel IH]; cbn [_poll_loop].
  - keep keeps_ret .
  - keep keeps_bind; [keep keeps_external |intros stop].
    destruct stop; [keep keeps_ret |].
    keep keeps_bind; [keep keeps_poll_pass|intros _].
    keep keeps_bind; [keep keeps_time_sleep |intros _].
    exact IH.
Qed.
End KeepsFrontend.

(** ** What the sampling loop keeps *)

Section LoopInvariants.
Context {RotEncoder : Type}.
Variable pins : RotEncoder -> list Z.
Variable get_event : M RotEncoder (option string).

Implicit Types (s : Frontend RotEncoder) (settings : Settings).

#[local] Instance same_configuration_refl : Reflexive (same_configuration (RotEncoder := RotEncoder)).
Proof. intros s. repeat split. Qed.

#[local] Instance same_configuration_trans :
  Transitive (same_configuration (RotEncoder := RotEncoder)).
Proof. intros s1 s2 s3 (H1 & H2 & H3) (H4 & H5 & H6). repeat split; congruence. Qed.

#[local] Instance levels_kept_refl : Reflexive (levels_kept (RotEncoder := RotEncoder)).
Proof. intros s pin H. exact H. Qed.

#[local] Instance levels_kept_trans : Transitive (levels_kept (RotEncoder := RotEncoder)).
Proof. intros s1 s2 s3 H1 H2 pin H. apply H2, H1, H. Qed.

Lemma encoder_change_same_keys (d : list (Value * RotEncoder)) i key enc enc' :
  d !! i = Some (key, enc) ->
  (<[i := (key, enc')]> d).*1 = d.*1.
Proof.
  intros Hi. rewrite list_fmap_insert. apply list_insert_id.
  rewrite list_lookup_fmap, Hi. reflexivity.
Qed.

Lemma loop_same_configuration fuel :
  keeps same_configuration (_poll_loop pins get_event fuel).
Proof.
  keep keeps_poll_loop.
  - intros s i key enc enc' Hi. repeat split. simpl.
    apply (encoder_change_same_keys _ i key enc enc' Hi).
  - intros s pin state. repeat split.
Qed.

Lemma loop_levels_kept fuel : keeps levels_kept (_poll_loop pins get_event fuel).
Proof.
  keep keeps_poll_loop.
  - intros s i key enc enc' Hi pin H. exact H.
  - intros s pin state pin' H. simpl.
    destruct (decide (pin = pin')) as [->|Hne].
    + rewrite lookup_insert_eq. eexists; reflexivity.
    + rewrite lookup_insert_ne by exact Hne. exact H.
Qed.

(** X5: whatever happens in _poll_loop (any number of passes, any
    exception), the loop never changes the line settings, the thread
    attribute or which encoder is bound to which id, and never drops a
    stored level; so an object in which every line has a stored level and
    every rotary line has its encoder stays such an object. *)
Theorem loop_keeps_well_formed fuel env h s r s' evs :
  _poll_loop pins get_event fuel env h s = (r, s', evs) ->
  same_configuration s s'
  /\ levels_kept s s'
  /\ (well_formed s -> well_formed s').
Proof.
  intros Hrun.
  pose proof (loop_same_configuration fuel env h s r s' evs Hrun) as Hcfg.
  pose proof (loop_levels_kept fuel env h s r s' evs Hrun) as Hlev.
  split; [exact Hcfg|]. split; [exact Hlev|].
  destruct Hcfg as (Hpins & _ & Hkeys).
  intros Hwf pin settings Hin. rewrite Hpins in Hin.
  destruct (Hwf pin settings Hin) as [Hlevel Henc]. split.
  - apply Hlev, Hlevel.
  - intros rotenc_id Hopt. rewrite Hkeys. apply Henc, Hopt.
Qed.
End LoopInvariants.

(** ** The stored levels *)

Section StoredLevels.
Context {RotEncoder : Type}.
Variable pins : RotEncoder -> list Z.
Variable get_event : M RotEncoder (option string).

Implicit Types (s : Frontend RotEncoder) (settings : Settings).

#[local] Instance same_levels_refl : Reflexive (same_levels (RotEncoder := RotEncoder)).
Proof. intros s. reflexivity. Qed.

#[local] Instance same_levels_trans : Transitive (same_levels (RotEncoder := RotEncoder)).
Proof. intros s1 s2 s3 H1 H2. unfold same_levels in *. congruence. Qed.

Lemma same_levels_encoder s i key (enc enc' : RotEncoder) :
  rot_encoders s !! i = Some (key, enc) ->
  same_levels s (set_rot_encoders (fun d => <[i := (key, enc')]> d) s).
Proof. intros _. reflexivity. Qed.

(** A computation that keeps the levels, followed by the store. *)
Lemma then_store (m : M (Frontend RotEncoder) unit) pin state env h s r s' evs :
  keeps same_levels m ->
  (m ;; last_states_set pin state) env h s = (r, s', evs) ->
  last_states s' =
    match r with
    | Ok _ => <[pin := state]> (last_states s)
    | Raise _ => last_states s
    end.
Proof.
  intros Hm. unfold bind.
  destruct (m env h s) as [[[[]|e] s1] ev1] eqn:Em; intros [= <- <- <-].
  - simpl. f_equal. exact (Hm env h s _ _ _ Em).
  - exact (Hm env h s _ _ _ Em).
Qed.

Lemma poll_line_levels env h s pin settings r s' evs :
  poll_line pins get_event (pin, settings) env h s = (r, s', evs) ->
  last_states s' =
    match r, gpio_input env h pin with
    | Ok _, Ok state => <[pin := state]> (last_states s)
    | _, _ => last_states s
    end.
Proof.
  unfold poll_line.
  destruct (gpio_input env h pin) as [state|e] eqn:Hread.
  2: { rewrite (bind_Raise _ _ env h s e s [EvInput pin])
         by (unfold GPIO_input, external; rewrite Hread; reflexivity).
       intros [= <- <- <-]. reflexivity. }
  rewrite (bind_one _ _ env h s state s (EvInput pin))
    by (unfold GPIO_input, external; rewrite Hread; reflexivity).
  destruct (last_states s !! pin) as [last|] eqn:Hlast.
  2: { rewrite (bind_Raise _ _ env _ s KeyError s [])
         by (unfold last_states_get; rewrite Hlast; reflexivity).
       intros [= <- <- <-]. reflexivity. }
  rewrite (bind_silent _ _ env _ s last s)
    by (unfold last_states_get; rewrite Hlast; reflexivity).
  destruct (options settings !! "rotenc_id") as [rotenc_id|].
  - destruct (poll_rotary get_event pin settings rotenc_id state last env _ s)
      as [[r1 s1] evs1] eqn:Hrun.
    intros [= <- <- <-]. unfold poll_rotary in Hrun.
    apply then_store in Hrun; [destruct r1; exact Hrun|].
    destruct (decide (state <> last)); [|keep keeps_ret].
    keep keeps_rotary_change. apply same_levels_encoder.
  - destruct (poll_button pins get_event pin settings state last env _ s)
      as [[r1 s1] evs1] eqn:Hrun.
    intros [= <- <- <-]. unfold poll_button in Hrun.
    apply then_store in Hrun; [destruct r1; exact Hrun|].
    destruct (activating_edge settings state last); [|keep keeps_ret].
    keep keeps_bind; [|intros _; keep keeps_debounce_wait].
    keep keeps_gpio_event. apply same_levels_encoder.
Qed.

(** X6: an iteration of the loop body that completes has stored the level
    it read for its pin and has changed no other stored level; one that
    raises (failed read, missing key, exception of get_event, of a handler
    or of time.sleep) leaves all stored levels as they were. *)
Theorem poll_line_stores_on_success env h s pin settings r s' evs :
  poll_line pins get_event (pin, settings) env h s = (r, s', evs) ->
  match r with
  | Ok _ =>
      exists state,
        gpio_input env h pin = Ok state
        /\ last_states s' !! pin = Some state
        /\ forall pin', pin' <> pin -> last_states s' !! pin' = last_states s !! pin'
  | Raise _ => last_states s' = last_states s
  end.
Proof.
  intros Hrun. pose proof (poll_line_levels env h s pin settings r s' evs Hrun) as Hl.
  destruct r as [[]|e].
  - destruct (gpio_input env h pin) as [state|e] eqn:Hread.
    + exists state. rewrite Hl. split; [reflexivity|]. split.
      * apply lookup_insert_eq.
      * intros pin' Hne. apply lookup_insert_ne. congruence.
    + exfalso. unfold poll_line in Hrun.
      rewrite (bind_Raise _ _ env h s e s [EvInput pin]) in Hrun
        by (unfold GPIO_input, external; rewrite Hread; reflexivity).
      discriminate.
  - destruct (gpio_input env h pin); exact Hl.
Qed.

Lemma activating_edge_same settings l : activating_edge settings l l = false.
Proof.
  unfold activating_edge.
  destruct (bool_decide (active settings <> "active_high")), l; reflexivity.
Qed.

Lemma store_same_level s pin l :
  last_states s !! pin = Some l ->
  set_last_states (fun m => <[pin := l]> m) s = s.
Proof.
  intros Hl. destruct s as [ps re ls pt]. unfold set_last_states. simpl in *.
  f_equal. apply insert_id. exact Hl.
Qed.

(** A line whose level is the stored one: one read and nothing else. *)
Lemma poll_line_idle env h s pin settings l :
  last_states s !! pin = Some l ->
  gpio_input env h pin = Ok l ->
  poll_line pins get_event (pin, settings) env h s = (Ok tt, s, [EvInput pin]).
Proof.
  intros Hlast Hread. unfold poll_line.
  rewrite (bind_one _ _ env h s l s (EvInput pin))
    by (unfold GPIO_input, external; rewrite Hread; reflexivity).
  rewrite (bind_silent _ _ env _ s l s)
    by (unfold last_states_get; rewrite Hlast; reflexivity).
  destruct (options settings !! "rotenc_id") as [rotenc_id|].
  - unfold poll_rotary. rewrite decide_False by (intros Hne; apply Hne; reflexivity).
    rewrite (bind_silent _ _ env _ s tt s) by reflexivity.
    unfold last_states_set, modify. rewrite (store_same_level s pin l Hlast). reflexivity.
  - unfold poll_button. rewrite activating_edge_same.
    rewrite (bind_silent _ _ env _ s tt s) by reflexivity.
    unfold last_states_set, modify. rewrite (store_same_level s pin l Hlast). reflexivity.
Qed.

(** X7: a level is acted on once.  After an iteration of the loop body
    that completed, for a button or for a rotary line, the next iteration
    for the same pin that reads the same level again only performs the
    read: no dispatch, no debounce wait, no call of the encoder, no change
    of the object. *)
Theorem level_is_acted_on_once env h s pin settings state s1 evs1 :
  gpio_input env h pin = Ok state ->
  poll_line pins get_event (pin, settings) env h s = (Ok tt, s1, evs1) ->
  gpio_input env (h ++ evs1) pin = Ok state ->
  poll_line pins get_event (pin, settings) env (h ++ evs1) s1
    = (Ok tt, s1, [EvInput pin]).
Proof.
  intros Hread Hrun Hagain.
  apply poll_line_idle with (l := state); [|exact Hagain].
  pose proof (poll_line_levels env h s pin settings _ _ _ Hrun) as Hst.
  rewrite Hread in Hst. rewrite Hst. apply lookup_insert_eq.
Qed.

Lemma for_each_idle env (lines : list (Z * Settings)) h s :
  (forall h' pin settings,
     (pin, settings) ∈ lines ->
     exists l, last_states s !! pin = Some l /\ gpio_input env h' pin = Ok l) ->
  for_each lines (poll_line pins get_event) env h s
    = (Ok tt, s, (fun line => EvInput line.1) <$> lines).
Proof.
  revert h. induction lines as [|[pin settings] lines IH]; intros h Hsteady.
  - reflexivity.
  - cbn [for_each fmap list_fmap].
    destruct (Hsteady h pin settings) as (l & Hlast & Hread); [left|].
    rewrite (bind_one (poll_line pins get_event (pin, settings)) _ env h s tt s
               (EvInput pin))
      by (apply poll_line_idle with (l := l); assumption).
    rewrite IH; [reflexivity|].
    intros h' pin' settings' Hin. apply (Hsteady h' pin' settings'). right. exact Hin.
Qed.

(** X8: while the hardware holds every configured line at its stored level
    and the stop flag is not set, the loop goes on for ever and every pass
    is the same: one read of the flag, one read of each line in the order
    of [pin_settings], one sleep of 0.5 ms; nothing is dispatched or
    logged, the encoders are not called and the object does not change. *)
Theorem idle_loop_only_reads env s :
  steady env s ->
  (forall h, stop_is_set env h = false) ->
  forall fuel h,
    _poll_loop pins get_event fuel env h s
      = (Ok None, s,
         mjoin (replicate fuel (EvIsSet :: pass_reads s ++ [EvSleep poll_interval]))).
Proof.
  intros Hsteady Hstop fuel. induction fuel as [|fuel IH]; intros h.
  - reflexivity.
  - assert (Hpass : poll_pass pins get_event env (h ++ [EvIsSet]) s
                    = (Ok tt, s, pass_reads s)).
    { unfold poll_pass.
      rewrite (bind_silent _ _ env _ s (pin_settings s) s) by reflexivity.
      apply for_each_idle. intros h' pin settings Hin. apply (Hsteady h' pin settings Hin). }
    rewrite (poll_loop_pass pins get_event env h s fuel s (pass_reads s) (Hstop h) Hpass).
    rewrite IH. cbn [replicate mjoin list_join]. cbn [app].
    rewrite <- app_assoc. reflexivity.
Qed.
End StoredLevels.

(** ** The rotary path *)

Section RotaryPath.
Context {RotEncoder : Type}.
Variable pins : RotEncoder -> list Z.
Variable get_event : M RotEncoder (option string).

Implicit Types (s : Frontend RotEncoder) (settings : Settings).

Lemma poll_line_rotary_change env h s pin settings rotenc_id state last
    i key enc ev enc' evs_enc :
  options settings !! "rotenc_id" = Some rotenc_id ->
  gpio_input env h pin = Ok state ->
  last_states s !! pin = Some last ->
  state <> last ->
  dict_index rotenc_id (rot_encoders s) = Some (i, (key, enc)) ->
  get_event env (h ++ [EvInput pin]) enc = (Ok ev, enc', evs_enc) ->
  poll_line pins get_event (pin, settings) env h s =
    (let s1 := set_rot_encoders (fun d => <[i := (key, enc')]> d) s in
     match truthy ev with
     | Some name =>
         let log := EvLog (LogRotary pin name) in
         let '(r, _, evs_d) :=
           dispatch_input name (options settings) env
             (h ++ [EvInput pin] ++ evs_enc ++ [log]) s1 in
         match r with
         | Ok _ =>
             (Ok tt, set_last_states (fun m => <[pin := state]> m) s1,
              EvInput pin :: evs_enc ++ log :: evs_d)
         | Raise e => (Raise e, s1, EvInput pin :: evs_enc ++ log :: evs_d)
         end
     | None =>
         (Ok tt, set_last_states (fun m => <[pin := state]> m) s1,
          EvInput pin :: evs_enc)
     end).
Proof.
  intros Hopt Hread Hlast Hne Hkey Hget. unfold poll_line.
  rewrite (bind_one _ _ env h s state s (EvInput pin))
    by (unfold GPIO_input, external; rewrite Hread; reflexivity).
  rewrite (bind_silent _ _ env _ s last s)
    by (unfold last_states_get; rewrite Hlast; reflexivity).
  rewrite Hopt. unfold poll_rotary. rewrite decide_True by exact Hne.
  assert (Hi : rot_encoders s !! i = Some (key, enc)).
  { unfold dict_index in Hkey. apply list_find_Some in Hkey. tauto. }
  cbv zeta. set (s1 := set_rot_encoders (fun d => <[i := (key, enc')]> d) s).
  unfold bind at 1.
  rewrite (bind_silent _ _ env _ s i s)
    by (unfold getitem_ref; rewrite Hkey; reflexivity).
  rewrite (bind_Ok _ _ env _ s ev s1 evs_enc)
    by (unfold encoder_get_event; rewrite Hi, Hget; reflexivity).
  destruct (truthy ev) as [name|].
  - rewrite (bind_one _ _ env _ s1 tt s1 (EvLog (LogRotary pin name))) by reflexivity.
    rewrite <- !app_assoc.
    destruct (dispatch_input name (options settings) env _ s1) as [[r s2] evs_d] eqn:Hd.
    apply dispatch_input_effects in Hd as [-> _].
    destruct r as [[]|e]; [|reflexivity].
    unfold last_states_set, modify. rewrite app_nil_r. reflexivity.
  - unfold ret, last_states_set, modify. rewrite !app_nil_r. reflexivity.
Qed.

(** X9: on a rotary line whose level changed (in either direction),
    get_event of the encoder bound to the line's "rotenc_id" is called
    once and the encoder object is updated in its place; the event it
    returns, unless None or empty, is dispatched once with the options of
    the sampled line, and the new state of the encoder stays also when the
    handler raises.  [get_event()] is taken not to call dispatch_input. *)
Theorem rotary_change_dispatches_encoder_event env h s pin settings rotenc_id
    state last i key enc ev enc' evs_enc r s' evs :
  options settings !! "rotenc_id" = Some rotenc_id ->
  gpio_input env h pin = Ok state ->
  last_states s !! pin = Some last ->
  state <> last ->
  dict_index rotenc_id (rot_encoders s) = Some (i, (key, enc)) ->
  get_event env (h ++ [EvInput pin]) enc = (Ok ev, enc', evs_enc) ->
  dispatched evs_enc = [] ->
  poll_line pins get_event (pin, settings) env h s = (r, s', evs) ->
  dispatched evs =
    match truthy ev with
    | Some name => [(name, options settings)]
    | None => []
    end
  /\ rot_encoders s' = <[i := (key, enc')]> (rot_encoders s).
Proof.
  intros Hopt Hread Hlast Hne Hkey Hget Hquiet.
  rewrite (poll_line_rotary_change env h s pin settings rotenc_id state last
             i key enc ev enc' evs_enc Hopt Hread Hlast Hne Hkey Hget).
  cbv zeta. destruct (truthy ev) as [name|].
  - destruct (dispatch_input name (options settings) env _ _) as [[r0 s0] evs_d] eqn:Hd.
    apply dispatch_input_effects in Hd as [_ (evs_h & -> & Hcore)].
    assert (Hdisp : dispatched
                      (EvInput pin :: evs_enc ++ EvLog (LogRotary pin name)
                         :: EvDispatch name (options settings) :: evs_h)
                    = [(name, options settings)]).
    { unfold dispatched. cbn [omap list_omap]. rewrite omap_app.
      fold (dispatched evs_enc). rewrite Hquiet. cbn [omap list_omap app].
      fold (dispatched evs_h). rewrite (dispatched_core evs_h Hcore). reflexivity. }
    destruct r0 as [[]|e]; intros [= <- <- <-]; (split; [exact Hdisp|reflexivity]).
  - intros [= <- <- <-]. split; [|reflexivity].
    unfold dispatched. cbn [omap list_omap]. exact Hquiet.
Qed.
End RotaryPath.

(** ** A button without an event name *)

Section EmptyEvent.
Context {RotEncoder : Type}.
Variable pins : RotEncoder -> list Z.
Variable get_event : M RotEncoder (option string).

(** X10: the activating edge of a button line whose event name is empty
    is not dispatched and not logged, but it is debounced and stored like
    any other: the iteration reads the line, sleeps for bouncetime / 1000
    seconds and stores the level.  The sleep takes place for every
    bouncetime from 0 to a day; when it does not, the iteration ends with
    its exception after the read alone, the level not stored. *)
Theorem unnamed_button_is_only_debounced env h (s : Frontend RotEncoder) pin settings
    state last :
  options settings !! "rotenc_id" = None ->
  bound_line s pin settings ->
  in_no_encoder pins s pin ->
  event settings = "" ->
  gpio_input env h pin = Ok state ->
  last_states s !! pin = Some last ->
  activating_edge settings state last = true ->
  poll_line pins get_event (pin, settings) env h s
    = match debounce_slept env settings with
      | Ok secs =>
          (Ok tt, set_last_states (fun m => <[pin := state]> m) s,
           [EvInput pin; EvSleep secs])
      | Raise e => (Raise e, s, [EvInput pin])
      end
  /\ (0 <= bouncetime settings <= bouncetime_max ->
      debounce_slept env settings = Ok (bouncetime settings # 1000)).
Proof.
  intros Hopt [i Hbound] Henc Hev Hread Hlast Hedge.
  split; [|apply debounce_slept_sure].
  rewrite (poll_line_button pins get_event env h s pin settings state last Hopt Hread Hlast).
  unfold poll_button. rewrite Hedge.
  assert (Hg : gpio_event pins get_event pin env (h ++ [EvInput pin]) s = (Ok tt, s, [])).
  { unfold gpio_event.
    rewrite (bind_silent _ _ env _ s settings s)
      by (unfold getitem; rewrite Hbound; reflexivity).
    rewrite (bind_silent _ _ env _ s None s)
      by (unfold find_pin_rotenc, gets; rewrite Henc; reflexivity).
    rewrite (bind_silent _ _ env _ s (Some (event settings)) s) by reflexivity.
    rewrite Hev. reflexivity. }
  unfold bind at 1. unfold bind at 1. rewrite Hg.
  rewrite debounce_wait_run.
  destruct (debounce_slept env settings) as [secs|e]; reflexivity.
Qed.
End EmptyEvent.


(** ** The construction of the object *)

Section InitSequencing.
Context {S : Type}.

Lemma ibind_Ok {A B} (m : IM S A) (f : A -> IM S B) env h s a s1 ev1 :
  m env h s = (Ok a, s1, ev1) ->
  ibind m f env h s =
    (let '(r, s2, ev2) := f a env (h ++ ev1) s1 in (r, s2, ev1 ++ ev2)).
Proof. intros Hm. unfold ibind. rewrite Hm. reflexivity. Qed.

Lemma ibind_Raise {A B} (m : IM S A) (f : A -> IM S B) env h s e s1 ev1 :
  m env h s = (Raise e, s1, ev1) ->
  ibind m f env h s = (Raise e, s1, ev1).
Proof. intros Hm. unfold ibind. rewrite Hm. reflexivity. Qed.

Lemma ibind_silent {A B} (m : IM S A) (f : A -> IM S B) env h s a s1 :
  m env h s = (Ok a, s1, []) ->
  ibind m f env h s = f a env h s1.
Proof.
  intros Hm. unfold ibind. rewrite Hm, app_nil_r.
  destruct (f a env h s1) as [[r s2] ev2]. reflexivity.
Qed.

(** What [ibind] returned [Ok] for. *)
Lemma ibind_inv_Ok {A B} (m : IM S A) (f : A -> IM S B) env h s b s2 evs :
  ibind m f env h s = (Ok b, s2, evs) ->
  exists a s1 ev1 ev2,
    m env h s = (Ok a, s1, ev1)
    /\ f a env (h ++ ev1) s1 = (Ok b, s2, ev2)
    /\ evs = ev1 ++ ev2.
Proof.
  unfold ibind. destruct (m env h s) as [[[a|e] s1] ev1]; [|discriminate].
  destruct (f a env (h ++ ev1) s1) as [[r s2'] ev2] eqn:Hf.
  intros [= -> <- <-]. exists a, s1, ev1, ev2. auto.
Qed.

Lemma ifor_each_app {A} (l1 l2 : list A) (body : A -> IM S unit) env h s :
  ifor_each (l1 ++ l2) body env h s =
    (ifor_each l1 body ;;; ifor_each l2 body) env h s.
Proof.
  revert h s. induction l1 as [|x l1 IH]; intros h s; simpl.
  - unfold ibind, iret. rewrite app_nil_r.
    destruct (ifor_each l2 body env h s) as [[r s2] ev2]. reflexivity.
  - unfold ibind in *.
    destruct (body x env h s) as [[[[]|e] s1] ev1]; [|reflexivity].
    rewrite IH.
    destruct (ifor_each l1 body env (h ++ ev1) s1) as [[[[]|e] s2] ev2]; [|reflexivity].
    rewrite <- app_assoc.
    destruct (ifor_each l2 body env (h ++ ev1 ++ ev2) s2) as [[r s3] ev3].
    rewrite app_assoc. reflexivity.
Qed.
End InitSequencing.

(** ** Dicts as lists of items *)

Section Dicts.
Context {K V : Type} `{EqDecision K}.
Implicit Types (d : list (K * V)).

Lemma dict_set_keys key v d :
  (dict_set key v d).*1 = if decide (key ∈ d.*1) then d.*1 else d.*1 ++ [key].
Proof.
  induction d as [|[k x] d IH]; cbn [dict_set fmap list_fmap fst].
  - destruct (decide (key ∈ [])) as [Hin|_]; [|reflexivity].
    apply elem_of_nil in Hin. contradiction.
  - destruct (decide (k = key)) as [->|Hne]; cbn [fmap list_fmap fst].
    + destruct (decide (key ∈ key :: d.*1)) as [_|Hout]; [reflexivity|].
      exfalso. apply Hout. left.
    + rewrite IH. destruct (decide (key ∈ d.*1)) as [Hin|Hin].
      * destruct (decide (key ∈ k :: d.*1)) as [_|Hout]; [reflexivity|].
        exfalso. apply Hout. right. exact Hin.
      * destruct (decide (key ∈ k :: d.*1)) as [Hin'|_]; [|reflexivity].
        apply elem_of_cons in Hin' as [Heq|Hin']; [congruence|contradiction].
Qed.

Lemma dict_set_NoDup key v d : NoDup d.*1 -> NoDup (dict_set key v d).*1.
Proof.
  intros Hd. rewrite dict_set_keys. destruct (decide (key ∈ d.*1)) as [Hin|Hout]; [exact Hd|].
  apply NoDup_app. split; [exact Hd|]. split.
  - intros k Hk Hk'. apply list_elem_of_singleton in Hk'. subst k. contradiction.
  - apply NoDup_singleton.
Qed.

Lemma elem_of_dict_set key v d k x :
  (k, x) ∈ dict_set key v d -> (k = key /\ x = v) \/ (k, x) ∈ d.
Proof.
  induction d as [|[k0 x0] d IH]; cbn [dict_set].
  - intros Hin. apply list_elem_of_singleton in Hin. injection Hin as -> ->. left. auto.
  - destruct (decide (k0 = key)) as [->|Hne]; intros Hin; apply elem_of_cons in Hin.
    + destruct Hin as [[= -> ->]|Hin]; [left; auto|right; right; exact Hin].
    + destruct Hin as [[= -> ->]|Hin]; [right; left|].
      destruct (IH Hin) as [Hl|Hr]; [left; exact Hl|right; right; exact Hr].
Qed.

Lemma dict_set_has_key key v d : key ∈ (dict_set key v d).*1.
Proof.
  rewrite dict_set_keys. destruct (decide (key ∈ d.*1)) as [Hin|_]; [exact Hin|].
  apply elem_of_app. right. left.
Qed.

Lemma dict_set_keeps_keys key v d k : k ∈ d.*1 -> k ∈ (dict_set key v d).*1.
Proof.
  intros Hk. rewrite dict_set_keys. destruct (decide (key ∈ d.*1)); [exact Hk|].
  apply elem_of_app. left. exact Hk.
Qed.

Lemma dict_set_keys_inv key v d k : k ∈ (dict_set key v d).*1 -> k = key \/ k ∈ d.*1.
Proof.
  rewrite dict_set_keys. destruct (decide (key ∈ d.*1)); [right; assumption|].
  intros [Hk|Hk]%elem_of_app; [right; exact Hk|].
  apply list_elem_of_singleton in Hk. left. exact Hk.
Qed.
End Dicts.

Section InitSteps.
Context {RotEncoder : Type}.
Variable new_encoder : Value -> RotEncoder.
Variable add_pin : Z -> string -> RotEncoder -> Result unit * RotEncoder.

Implicit Types (s : Frontend RotEncoder) (settings : Settings).

Lemma encoders_extended_refl s : encoders_extended s s.
Proof. repeat split; auto. Qed.

Lemma encoder_add_pin_Ok i pin name env h s s1 evs :
  encoder_add_pin add_pin i pin name env h s = (Ok tt, s1, evs) ->
  evs = [] /\ encoders_extended s s1
  /\ (rot_encoders s1).*1 = (rot_encoders s).*1.
Proof.
  unfold encoder_add_pin.
  destruct (rot_encoders s !! i) as [[key encoder]|] eqn:Hi; [|discriminate].
  destruct (add_pin pin name encoder) as [r encoder'].
  intros [= -> <- <-].
  assert (Hkeys : (<[i := (key, encoder')]> (rot_encoders s)).*1 = (rot_encoders s).*1)
    by (apply (encoder_change_same_keys _ i key encoder encoder' Hi)).
  split; [reflexivity|]. split; [|exact Hkeys].
  repeat split; simpl; rewrite ?Hkeys; auto.
Qed.

Lemma get_or_create_encoder_run rotenc_id env h s :
  get_or_create_encoder new_encoder rotenc_id env h s =
    match dict_index rotenc_id (rot_encoders s) with
    | Some (i, _) => (Ok i, s, [])
    | None =>
        (Ok (length (rot_encoders s)),
         set_rot_encoders (dict_set rotenc_id (new_encoder rotenc_id)) s, [])
    end.
Proof.
  unfold get_or_create_encoder, ibind, igets, imodify, iret.
  destruct (dict_index rotenc_id (rot_encoders s)) as [[i kv]|]; reflexivity.
Qed.

Lemma encoder_part_Ok pin settings env h s s1 evs :
  match options settings !! "rotenc_id" with
  | Some rotenc_id =>
      i <~ get_or_create_encoder new_encoder rotenc_id ;;
      encoder_add_pin add_pin i pin (event settings)
  | None => iret tt
  end env h s = (Ok tt, s1, evs) ->
  evs = [] /\ encoders_extended s s1
  /\ forall rotenc_id,
       options settings !! "rotenc_id" = Some rotenc_id ->
       rotenc_id ∈ (rot_encoders s1).*1.
Proof.
  destruct (options settings !! "rotenc_id") as [id|].
  2: { intros [= <- <-]. split; [reflexivity|]. split; [apply encoders_extended_refl|].
       intros id [=]. }
  pose proof (get_or_create_encoder_run id env h s) as Hget.
  destruct (dict_index id (rot_encoders s)) as [[i [k enc]]|] eqn:Hfind.
  - rewrite (ibind_silent _ _ env h s i s Hget).
    intros Hadd. apply encoder_add_pin_Ok in Hadd as (-> & Hext & Hkeys).
    split; [reflexivity|]. split; [exact Hext|].
    intros id' [= <-]. rewrite Hkeys.
    unfold dict_index in Hfind. apply list_find_Some in Hfind as (Hi & Hk & _).
    simpl in Hk. subst k. apply list_elem_of_fmap. exists (id, enc). split; [reflexivity|].
    apply list_elem_of_lookup. exists i. exact Hi.
  - rewrite (ibind_silent _ _ env h s _ _ Hget).
    intros Hadd. apply encoder_add_pin_Ok in Hadd as (-> & Hext & Hkeys).
    destruct Hext as (Hp & Hl & Ht & Hnd & Hsub).
    split; [reflexivity|]. split.
    + repeat split; auto.
      * intros Hd. apply Hnd. simpl. apply dict_set_NoDup, Hd.
      * intros k Hk. apply Hsub. simpl. apply dict_set_keeps_keys, Hk.
    + intros id' [= <-]. rewrite Hkeys. simpl. apply dict_set_has_key.
Qed.

(** What an item of the configuration does when the loop body gets
    through it. *)
Lemma setup_key_Ok key value env h s s' evs :
  setup_key new_encoder add_pin (key, value) env h s = (Ok tt, s', evs) ->
  evs = key_calls (init_int_of_str env) (key, value)
  /\ ((s' = s /\ evs = [])
      \/ exists pin settings s1 state,
           pin_of_key (init_int_of_str env) key = Ok pin
           /\ value = Some settings
           /\ encoders_extended s s1
           /\ (forall rotenc_id,
                 options settings !! "rotenc_id" = Some rotenc_id ->
                 rotenc_id ∈ (rot_encoders s1).*1)
           /\ s' = set_last_states (fun m => <[pin := state]> m)
                     (set_pin_settings (dict_set pin settings) s1)).
Proof.
  unfold setup_key, key_calls. cbn [fst snd].
  destruct (startswith_bcm key).
  2: { intros [= <- <-]. split; [reflexivity|]. left. auto. }
  destruct (pin_of_key (init_int_of_str env) key) as [pin|e] eqn:Hpin.
  2: { rewrite (ibind_Raise _ _ env h s e s [])
         by (unfold ibuiltin; rewrite Hpin; reflexivity).
       discriminate. }
  rewrite (ibind_silent _ _ env h s pin s)
    by (unfold ibuiltin; rewrite Hpin; reflexivity).
  destruct value as [settings|].
  2: { intros [= <- <-]. split; [reflexivity|]. left. auto. }
  rewrite (ibind_Ok _ _ env h s tt s [IeConfiguring key settings]) by reflexivity.
  destruct (ibind _ _ env _ s) as [[r s2] evs2] eqn:Hrest.
  intros [= -> <- <-].
  apply ibind_inv_Ok in Hrest as ([] & s1 & ev1 & ev2 & Henc & Hrest & ->).
  apply encoder_part_Ok in Henc as (-> & Hext & Hid).
  apply ibind_inv_Ok in Hrest as ([] & s3 & ev3 & ev4 & Hsetup & Hrest & ->).
  unfold gpio_call in Hsetup.
  destruct (gpio_accepts env _ _) as [[]|e]; [|discriminate].
  injection Hsetup as <- <-.
  apply ibind_inv_Ok in Hrest as ([] & s4 & ev5 & ev6 & Hset & Hrest & ->).
  injection Hset as <- <-.
  apply ibind_inv_Ok in Hrest as (state & s5 & ev7 & ev8 & Hread & Hstore & ->).
  unfold gpio_read in Hread.
  destruct (gpio_level env _ pin) as [state'|e]; [|discriminate].
  injection Hread as <- <- <-. injection Hstore as <- <-.
  split; [reflexivity|]. right.
  exists pin, settings, s1, state'. auto.
Qed.
End InitSteps.

Section InitProperties.
Context {RotEncoder : Type}.
Variable new_encoder : Value -> RotEncoder.
Variable add_pin : Z -> string -> RotEncoder -> Result unit * RotEncoder.

Implicit Types (s : Frontend RotEncoder) (settings : Settings).

Lemma setup_key_constructed item env h s s' evs :
  setup_key new_encoder add_pin item env h s = (Ok tt, s', evs) ->
  constructed s -> constructed s'.
Proof.
  destruct item as [key value]. intros Hrun.
  apply setup_key_Ok in Hrun as [_ [[-> _]|Hline]]; [auto|].
  destruct Hline as (pin & settings & s1 & state & _ & _ & Hext & Hid & ->).
  destruct Hext as (Hp & Hl & Ht & Hnd & Hsub).
  intros (Hpins & Hencs & Hthread & Hwf & Hdom).
  unfold constructed. simpl. rewrite Hp, Hl, Ht.
  split; [apply dict_set_NoDup, Hpins|].
  split; [apply Hnd, Hencs|].
  split; [exact Hthread|]. split.
  - intros p st Hin. simpl in Hin. rewrite Hp in Hin. simpl. rewrite Hl.
    apply elem_of_dict_set in Hin as [[-> ->]|Hin].
    + split; [rewrite lookup_insert_eq; eexists; reflexivity|exact Hid].
    + destruct (Hwf p st Hin) as [Hlevel Henc]. split.
      * destruct (decide (pin = p)) as [->|Hne].
        -- rewrite lookup_insert_eq. eexists; reflexivity.
        -- rewrite lookup_insert_ne by exact Hne. exact Hlevel.
      * intros id Hopt. apply Hsub, Henc, Hopt.
  - intros p. destruct (decide (pin = p)) as [->|Hne].
    + intros _. apply dict_set_has_key.
    + rewrite lookup_insert_ne by exact Hne. intros Hlevel.
      apply dict_set_keeps_keys, Hdom, Hlevel.
Qed.

Lemma ifor_each_setup_Ok config env h s s' evs :
  ifor_each config (setup_key new_encoder add_pin) env h s = (Ok tt, s', evs) ->
  evs = flat_map (key_calls (init_int_of_str env)) config
  /\ (constructed s -> constructed s').
Proof.
  revert h s s' evs. induction config as [|item config IH]; intros h s s' evs.
  - intros [= <- <-]. auto.
  - cbn [ifor_each flat_map]. intros Hrun.
    apply ibind_inv_Ok in Hrun as ([] & s1 & ev1 & ev2 & Hitem & Hrest & ->).
    apply IH in Hrest as [-> Hinv].
    pose proof (setup_key_constructed item env h s s1 ev1 Hitem) as Hstep.
    destruct item as [key value]. apply setup_key_Ok in Hitem as [-> _].
    auto.
Qed.

Lemma empty_frontend_constructed : constructed (empty_frontend (RotEncoder := RotEncoder)).
Proof.
  unfold constructed, empty_frontend, well_formed. simpl.
  split; [constructor|]. split; [constructor|]. split; [reflexivity|]. split.
  - intros pin settings Hin. apply elem_of_nil in Hin. contradiction.
  - intros pin [l Hl]. rewrite lookup_empty in Hl. discriminate.
Qed.

Lemma init_Ok config env h s s' evs :
  __init__ new_encoder add_pin config env h s = (Ok tt, s', evs) ->
  evs = IeSetwarnings false :: IeSetmodeBCM :: flat_map (key_calls (init_int_of_str env)) config
  /\ (constructed s -> constructed s').
Proof.
  unfold __init__. intros Hrun.
  apply ibind_inv_Ok in Hrun as ([] & s1 & ev1 & ev2 & Hw & Hrun & ->).
  unfold gpio_call in Hw. destruct (gpio_accepts env h _) as [[]|e]; [|discriminate].
  injection Hw as <- <-.
  apply ibind_inv_Ok in Hrun as ([] & s2 & ev3 & ev4 & Hm & Hrun & ->).
  unfold gpio_call in Hm. destruct (gpio_accepts env _ _) as [[]|e]; [|discriminate].
  injection Hm as <- <-.
  apply ifor_each_setup_Ok in Hrun as [-> Hinv]. auto.
Qed.

(** X12: the object that a successful __init__ leaves is ready for the
    loop: no pin and no encoder id occurs twice, [_polling_thread] is not
    bound, every configured line has a stored level and every line with a
    "rotenc_id" option has its encoder, and levels are stored for the
    configured pins only. *)
Theorem init_builds_well_formed config env s evs :
  construct new_encoder add_pin config env = (Ok tt, s, evs) ->
  constructed s.
Proof.
  unfold construct. intros Hrun.
  apply init_Ok in Hrun as [_ Hinv]. apply Hinv, empty_frontend_constructed.
Qed.

(** X13: a successful __init__ calls GPIO.setwarnings(False) and
    GPIO.setmode(GPIO.BCM) and then, for each "bcm" key with settings, in
    the order of the configuration: the log line, GPIO.setup(pin, IN) with
    pull-down for "active_high" and pull-up for every other polarity, and
    one GPIO.input(pin); it makes no other call, so no line is read
    before it is set up, and a key without the prefix or without settings
    causes no call. *)
Theorem init_calls config env s evs :
  construct new_encoder add_pin config env = (Ok tt, s, evs) ->
  evs = IeSetwarnings false :: IeSetmodeBCM :: flat_map (key_calls (init_int_of_str env)) config.
Proof.
  unfold construct. intros Hrun. apply init_Ok in Hrun as [Hevs _]. exact Hevs.
Qed.

Lemma setup_key_passed_over item env h s :
  matters (init_int_of_str env) item = false ->
  setup_key new_encoder add_pin item env h s = (Ok tt, s, []).
Proof.
  destruct item as [key value]. unfold matters, setup_key. cbn [fst snd].
  destruct (startswith_bcm key); [|reflexivity].
  destruct value as [settings|]; [discriminate|].
  destruct (pin_of_key (init_int_of_str env) key) as [pin|e] eqn:Hpin; [|discriminate].
  intros _.
  rewrite (ibind_silent _ _ env h s pin s)
    by (unfold ibuiltin; rewrite Hpin; reflexivity).
  reflexivity.
Qed.

Lemma ifor_each_filter config env h s :
  ifor_each (List.filter (matters (init_int_of_str env)) config) (setup_key new_encoder add_pin) env h s
    = ifor_each config (setup_key new_encoder add_pin) env h s.
Proof.
  revert h s. induction config as [|item config IH]; intros h s; [reflexivity|].
  cbn [List.filter ifor_each]. destruct (matters (init_int_of_str env) item) eqn:Hitem.
  - cbn [ifor_each]. unfold ibind.
    destruct (setup_key new_encoder add_pin item env h s) as [[[[]|e] s1] ev1]; [|reflexivity].
    rewrite IH. reflexivity.
  - rewrite (ibind_silent _ _ env h s tt s (setup_key_passed_over item env h s Hitem)).
    apply IH.
Qed.

(** X14: __init__ passes over every item of the section whose key does
    not start with "bcm" (whatever its value) and every "bcm" key whose
    value is None and on the rest of which [int()] does not raise: with or
    without such items the result, the object and the calls are the
    same. *)
Theorem init_passes_over_other_keys config env :
  construct new_encoder add_pin (List.filter (matters (init_int_of_str env)) config) env
    = construct new_encoder add_pin config env.
Proof.
  unfold construct, __init__, ibind.
  destruct (gpio_call (IeSetwarnings false) env [] empty_frontend) as [[[[]|e] s1] ev1];
    [|reflexivity].
  destruct (gpio_call IeSetmodeBCM env ([] ++ ev1) s1) as [[[[]|e] s2] ev2]; [|reflexivity].
  rewrite ifor_each_filter. reflexivity.
Qed.

(** X15: a key that starts with "bcm" and on the rest of which [int()]
    raises makes __init__ raise that exception, also when the value of the
    key is None, because the number is read before the value; the lines
    configured before stay set up and the items after it are not looked
    at. *)
Theorem init_bad_key_raises pre key value post env h s s1 evs1 e :
  startswith_bcm key = true ->
  pin_of_key (init_int_of_str env) key = Raise e ->
  __init__ new_encoder add_pin pre env h s = (Ok tt, s1, evs1) ->
  __init__ new_encoder add_pin (pre ++ (key, value) :: post) env h s
    = (Raise e, s1, evs1).
Proof.
  intros Hprefix Hpin. unfold __init__. intros Hrun.
  apply ibind_inv_Ok in Hrun as ([] & s2 & ev1 & ev2 & Hw & Hrun & ->).
  rewrite (ibind_Ok _ _ env h s tt s2 ev1 Hw).
  apply ibind_inv_Ok in Hrun as ([] & s3 & ev3 & ev4 & Hm & Hrun & ->).
  rewrite (ibind_Ok _ _ env _ s2 tt s3 ev3 Hm).
  rewrite ifor_each_app. rewrite (ibind_Ok _ _ env _ s3 tt s1 ev4 Hrun).
  cbn [ifor_each].
  assert (Hkey : setup_key new_encoder add_pin (key, value) env (((h ++ ev1) ++ ev3) ++ ev4) s1
                 = (Raise e, s1, [])).
  { unfold setup_key. rewrite Hprefix.
    apply ibind_Raise. unfold ibuiltin. rewrite Hpin. reflexivity. }
  rewrite (ibind_Raise _ _ env _ s1 e s1 [] Hkey). rewrite app_nil_r. reflexivity.
Qed.
End InitProperties.

(** ** The further properties on the small installation *)

Section FurtherOnTheInstallation.
Import RotEncoderModel Examples InitExamples.

(** Facts about the installation hold by evaluation. *)
Ltac by_evaluation :=
  first [ reflexivity | discriminate | lia | apply triple_eta
        | vm_compute; reflexivity | exists 0%nat; vm_compute; reflexivity ].

Lemma volume_handlers_bounded_witness :
  (exists v,
     volumes_set (handle_volume_up step5_options (env_of pressed 98 None) [] tt).2 = [v]
     /\ v <= 100)
  /\ (exists v,
        volumes_set (handle_volume_down ∅ (env_of pressed 3 None) [] tt).2 = [v]
        /\ 0 <= v).
Proof.
  split.
  - exact (proj2 (proj1 (volume_handlers_bounded step5_options (env_of pressed 98 None) [] tt)
                    _ _ _ (triple_eta _))).
  - exact (proj2 (proj2 (volume_handlers_bounded ∅ (env_of pressed 3 None) [] tt)
                    _ _ _ (triple_eta _))).
Defined.

Lemma playlist_failure_modes_witness :
  (handle_playlist gone_options (env_of pressed 98 None) [] tt).1.1 = Raise AttributeError
  /\ tracklist_after (handle_playlist gone_options (env_of pressed 98 None) [] tt).2
       ["local:track:old.mp3"] = []
  /\ tracklist_after (handle_playlist party_options (env_of pressed 98 None) [] tt).2
       ["local:track:old.mp3"] = ["local:track:a.mp3"; "local:track:b.mp3"].
Proof.
  pose proof (playlist_failure_modes gone_options (env_of pressed 98 None) [] tt
                _ _ _ (triple_eta _)) as (_ & Hgone & _ & _ & Hqueue).
  pose proof (playlist_failure_modes party_options (env_of pressed 98 None) [] tt
                _ _ _ (triple_eta _)) as (_ & _ & _ & _ & Hparty).
  split; [exact Hgone|]. split; [apply Hqueue|apply Hparty].
Defined.

Lemma on_stop_before_on_start_witness :
  on_stop (env_of released 98 None) [] (frontend "next")
    = (Raise AttributeError, frontend "next", [EvStopSet]).
Proof.
  apply (on_stop_before_on_start (env_of released 98 None) [] (frontend "next")).
  reflexivity.
Defined.

Lemma loop_keeps_well_formed_witness :
  pin_settings (_poll_loop pins get_event 3 (env_of pressed 98 None) [] (frontend "next")).1.2
    = pin_settings (frontend "next").
Proof.
  apply (loop_keeps_well_formed pins get_event 3 (env_of pressed 98 None) []
           (frontend "next") _ _ _ (triple_eta _)).
Defined.

Lemma poll_line_stores_on_success_witness :
  exists state,
    gpio_input (env_of pressed 98 None) [] 17 = Ok state
    /\ last_states
         (poll_line pins get_event (17, button17 "next") (env_of pressed 98 None) []
            (frontend "next")).1.2 !! 17 = Some state
    /\ forall pin', pin' <> 17 ->
         last_states
           (poll_line pins get_event (17, button17 "next") (env_of pressed 98 None) []
              (frontend "next")).1.2 !! pin'
         = last_states (frontend "next") !! pin'.
Proof.
  exact (poll_line_stores_on_success pins get_event (env_of pressed 98 None) []
           (frontend "next") 17 (button17 "next") _ _ _ (triple_eta _)).
Defined.

Lemma level_is_acted_on_once_witness :
  poll_line pins get_event (17, button17 "next") (env_of pressed 98 None)
    [EvInput 17; EvLog (LogGpio 17 "next" ∅); EvDispatch "next" ∅; EvCore Next;
     EvSleep (200 # 1000)]
    (set_last_states (fun m => <[17 := LOW]> m) (frontend "next"))
  = (Ok tt, set_last_states (fun m => <[17 := LOW]> m) (frontend "next"), [EvInput 17]).
Proof.
  apply (level_is_acted_on_once pins get_event (env_of pressed 98 None) []
           (frontend "next") 17 (button17 "next") LOW
           (set_last_states (fun m => <[17 := LOW]> m) (frontend "next"))
           [EvInput 17; EvLog (LogGpio 17 "next" ∅); EvDispatch "next" ∅; EvCore Next;
            EvSleep (200 # 1000)]); by_evaluation.
Defined.

Lemma released_is_steady : steady (env_of released 98 None) (frontend "next").
Proof.
  intros h pin settings Hin. exists HIGH. split; [|reflexivity].
  repeat (apply elem_of_cons in Hin as [[= -> ->]|Hin]; [by_evaluation|]).
  apply elem_of_nil in Hin. contradiction.
Qed.

Lemma idle_loop_only_reads_witness :
  _poll_loop pins get_event 2 (env_of released 98 None) [] (frontend "next")
  = (Ok None, frontend "next",
     [EvIsSet; EvInput 17; EvInput 5; EvInput 6; EvInput 27; EvSleep poll_interval;
      EvIsSet; EvInput 17; EvInput 5; EvInput 6; EvInput 27; EvSleep poll_interval]).
Proof.
  apply (idle_loop_only_reads pins get_event (env_of released 98 None) (frontend "next")
           released_is_steady (fun h => eq_refl) 2%nat []).
Defined.

Lemma rotary_change_dispatches_encoder_event_witness :
  dispatched
    (poll_line pins get_event (5, rotary "volume_up") (env_of pressed 98 None) []
       (frontend "next")).2
  = [("volume_down", options (rotary "volume_up"))].
Proof.
  pose (turn := get_event (env_of pressed 98 None) [EvInput 5] vol_encoder).
  pose (run := poll_line pins get_event (5, rotary "volume_up") (env_of pressed 98 None) []
                 (frontend "next")).
  apply (rotary_change_dispatches_encoder_event pins get_event (env_of pressed 98 None) []
           (frontend "next") 5 (rotary "volume_up") (VStr "vol") LOW HIGH 0%nat
           (VStr "vol") vol_encoder (Some "volume_down") turn.1.2 turn.2
           run.1.1 run.1.2 run.2); by_evaluation.
Defined.

Lemma unnamed_button_is_only_debounced_witness :
  poll_line pins get_event (17, button17 "") (env_of pressed 98 None) [] (frontend "")
  = (Ok tt, set_last_states (fun m => <[17 := LOW]> m) (frontend ""),
     [EvInput 17; EvSleep (200 # 1000)]).
Proof.
  destruct (unnamed_button_is_only_debounced pins get_event (env_of pressed 98 None) []
              (frontend "") 17 (button17 "") LOW HIGH) as [Hrun Hsure]; [by_evaluation ..|].
  rewrite Hrun, Hsure by (unfold bouncetime_max; cbn; lia). reflexivity.
Defined.

Lemma init_builds_well_formed_witness :
  constructed (construct RotEncoderInit.new_encoder RotEncoderInit.add_pin section board).1.2.
Proof.
  apply (init_builds_well_formed RotEncoderInit.new_encoder RotEncoderInit.add_pin
           section board _ _ (triple_eta _)).
Defined.

Lemma init_calls_witness :
  (construct RotEncoderInit.new_encoder RotEncoderInit.add_pin section board).2
  = [IeSetwarnings false; IeSetmodeBCM;
     IeConfiguring "bcm17" (button17 "next"); IeSetup 17 PUD_UP; IeInput 17;
     IeConfiguring "bcm5" (rotary "volume_up"); IeSetup 5 PUD_UP; IeInput 5;
     IeConfiguring "bcm6" (rotary "volume_down"); IeSetup 6 PUD_UP; IeInput 6;
     IeConfiguring "bcm27" button27; IeSetup 27 PUD_DOWN; IeInput 27].
Proof.
  apply (init_calls RotEncoderInit.new_encoder RotEncoderInit.add_pin
           section board _ _ (triple_eta _)).
Defined.

Lemma init_bad_key_raises_witness :
  (construct RotEncoderInit.new_encoder RotEncoderInit.add_pin section_bad_key board).1.1
    = Raise ValueError
  /\ (construct RotEncoderInit.new_encoder RotEncoderInit.add_pin section_bad_key board).2
     = [IeSetwarnings false; IeSetmodeBCM;
        IeConfiguring "bcm17" (button17 "next"); IeSetup 17 PUD_UP; IeInput 17].
Proof.
  pose (before := construct RotEncoderInit.new_encoder RotEncoderInit.add_pin
                    [("bcm17", Some (button17 "next"))] board).
  assert (Hraise :
    __init__ RotEncoderInit.new_encoder RotEncoderInit.add_pin
      ([("bcm17", Some (button17 "next"))] ++ ("bcmx", None) :: [("bcm27", Some button27)])
      board [] empty_frontend
    = (Raise ValueError, before.1.2, before.2)).
  { apply (init_bad_key_raises RotEncoderInit.new_encoder RotEncoderInit.add_pin
             [("bcm17", Some (button17 "next"))] "bcmx" None [("bcm27", Some button27)]
             board [] empty_frontend before.1.2 before.2 ValueError); by_evaluation. }
  change (construct RotEncoderInit.new_encoder RotEncoderInit.add_pin section_bad_key board)
    with (__init__ RotEncoderInit.new_encoder RotEncoderInit.add_pin
            ([("bcm17", Some (button17 "next"))] ++ ("bcmx", None)
               :: [("bcm27", Some button27)])
            board [] empty_frontend).
  rewrite Hraise. split; reflexivity.
Defined.
End FurtherOnTheInstallation.
